(** * redis-om-node: schema-driven converters, index schema builder and
      fluent search, embedded from the TypeScript sources.

    The development follows the source files:
    - [JsNumber], [JsString], [JsDate]: the fragment of the JavaScript
      runtime the converters call ([Number.prototype.toString],
      [Number.parseFloat], [Number.parseInt], [String.prototype.split],
      [Array.prototype.join], [Date.prototype.setTime]);
    - [Converter]: [HashConverter] and [JsonConverter] with their four
      converter tables;
    - [LegacyHashConverter]: [lib/repository/hash-converter.ts];
    - [SchemaBuilder]: [buildHashSchemaEntry] and [buildJsonSchemaEntry];
    - [EntityProperty]: the property setter and getter that
      [Schema.defineProperties] installs;
    - [Search]: the fluent query builder.

    Numbers are decimals [m * 10^e] kept exact: the model does not round to
    53 bits, does not overflow to [Infinity] and identifies [-0] with [0].
    Strings are sequences of 8-bit characters. *)

From Stdlib Require Import ZArith Ascii String List Lia Bool.
From stdpp Require Import base strings gmap list.

(* ================================================================== *)
(** * Definitions *)
(* ================================================================== *)

(** ** Outcome of a call *)

(** What a [throw] carries: [Error(message)], [RedisError(message)], or the
    [TypeError] the runtime raises on a property access on [null] or
    [undefined]. *)
Inductive exception : Type :=
| Error (message : string)
| RedisError (message : string)
| TypeError.

(** A call returns a value or throws. A TypeScript cast [value as T] is a
    projection; on a value outside [T], which the types exclude, the
    outcome is [IllTyped]. *)
Inductive result (A : Type) : Type :=
| Ok (a : A)
| Throw (e : exception)
| IllTyped.
Arguments Ok {A} a.
Arguments Throw {A} e.
Arguments IllTyped {A}.

Definition bind {A B : Type} (r : result A) (k : A -> result B) : result B :=
  match r with
  | Ok a => k a
  | Throw e => Throw e
  | IllTyped => IllTyped
  end.

Notation "x <- r ;; k" := (bind r (fun x => k))
  (at level 100, r at next level, right associativity).

Fixpoint mapM {A B : Type} (f : A -> result B) (l : list A) : result (list B) :=
  match l with
  | [] => Ok []
  | a :: rest => b <- f a ;; bs <- mapM f rest ;; Ok (b :: bs)
  end.

(** ** JavaScript numbers *)

Module JsNumber.
Local Open Scope Z_scope.

(** A number is [NaN], an infinity, or the decimal [m * 10^e]. *)
Inductive number : Type :=
| NaN
| Infinity (negative : bool)
| Finite (m : Z) (e : Z).

(** The canonical decimal: zero is [Finite 0 0], and a non-zero mantissa
    does not end in the digit 0. *)
Definition canonical (x : number) : Prop :=
  match x with
  | Finite m e => (m = 0 -> e = 0) /\ (m <> 0 -> m mod 10 <> 0)
  | _ => True
  end.

Definition canonicalb (x : number) : bool :=
  match x with
  | Finite m e => if m =? 0 then e =? 0 else negb (m mod 10 =? 0)
  | _ => true
  end.

Fixpoint strip_zeros (fuel : nat) (m e : Z) : Z * Z :=
  match fuel with
  | O => (m, e)
  | S f => if m mod 10 =? 0 then strip_zeros f (m / 10) (e + 1) else (m, e)
  end.

(** The number [m * 10^e]. *)
Definition decimal (m e : Z) : number :=
  if m =? 0 then Finite 0 0
  else let '(m', e') := strip_zeros (Z.to_nat (Z.log2 (Z.abs m))) m e in
       Finite m' e'.

Definition of_Z (n : Z) : number := decimal n 0.

Definition isNaN (x : number) : bool :=
  match x with NaN => true | _ => false end.

(** *** Digits *)

Definition digit_char (d : Z) : ascii := ascii_of_nat (48 + Z.to_nat d).

Definition digit_val (c : ascii) : option Z :=
  let n := nat_of_ascii c in
  if (48 <=? n)%nat && (n <=? 57)%nat then Some (Z.of_nat (n - 48)) else None.

Definition hex_val (c : ascii) : option Z :=
  let n := nat_of_ascii c in
  if (48 <=? n)%nat && (n <=? 57)%nat then Some (Z.of_nat (n - 48))
  else if (97 <=? n)%nat && (n <=? 102)%nat then Some (Z.of_nat (n - 87))
  else if (65 <=? n)%nat && (n <=? 70)%nat then Some (Z.of_nat (n - 55))
  else None.

Fixpoint digits_fuel (fuel : nat) (n : Z) : list ascii :=
  match fuel with
  | O => []
  | S f => if n <? 10 then [digit_char n]
           else digits_fuel f (n / 10) ++ [digit_char (n mod 10)]
  end.

(** The decimal digits of [n >= 0], most significant first. *)
Definition digits (n : Z) : list ascii :=
  digits_fuel (S (Z.to_nat (Z.log2 n))) n.

Definition zeros (n : nat) : list ascii := repeat "0"%char n.

Definition is_digit (c : ascii) : bool :=
  match digit_val c with Some _ => true | None => false end.

(** The number a sequence of decimal digits denotes when read after the
    digits of [acc]. *)
Definition digits_value (acc : Z) (ds : list ascii) : Z :=
  fold_left (fun a c => 10 * a + default 0 (digit_val c)) ds acc.

Definition not_comma (c : ascii) : bool := negb (Ascii.eqb "," c).

(** The input is empty or starts with a character [p] rejects. *)
Definition stops (p : ascii -> bool) (s : list ascii) : bool :=
  match s with
  | c :: _ => negb (p c)
  | [] => true
  end.

(** *** Number::toString (radix 10), ECMAScript 6.1.6.1.20 *)

(** [render_pos m e] prints [m * 10^e] for [m > 0] not ending in 0: with
    [k] the number of digits of [m] and [n = k + e], the five cases of the
    standard. *)
Definition render_pos (m e : Z) : list ascii :=
  let ds := digits m in
  let k := Z.of_nat (length ds) in
  let n := k + e in
  if (k <=? n) && (n <=? 21) then ds ++ zeros (Z.to_nat (n - k))
  else if (0 <? n) && (n <=? 21) then
    firstn (Z.to_nat n) ds ++ "."%char :: skipn (Z.to_nat n) ds
  else if (-6 <? n) && (n <=? 0) then
    "0"%char :: "."%char :: zeros (Z.to_nat (- n)) ++ ds
  else
    let x := n - 1 in
    let exponent :=
      "e"%char :: (if x <? 0 then "-"%char else "+"%char) :: digits (Z.abs x) in
    match ds with
    | [] => exponent
    | [d] => d :: exponent
    | d :: rest => d :: "."%char :: rest ++ exponent
    end.

Definition render (x : number) : list ascii :=
  match x with
  | NaN => list_ascii_of_string "NaN"
  | Infinity false => list_ascii_of_string "Infinity"
  | Infinity true => list_ascii_of_string "-Infinity"
  | Finite m e =>
      match decimal m e with
      | Finite m' e' =>
          if m' =? 0 then ["0"%char]
          else if m' <? 0 then "-"%char :: render_pos (- m') e'
          else render_pos m' e'
      | _ => []
      end
  end.

(** [value.toString()] and [`${value}`] on a number. *)
Definition toString (x : number) : string := string_of_list_ascii (render x).

(** *** Number.parseFloat and Number.parseInt *)

(** StrWhiteSpaceChar among the 8-bit characters: TAB, LF, VT, FF, CR, SP
    and NBSP. *)
Definition is_ws (c : ascii) : bool :=
  let n := nat_of_ascii c in
  ((9 <=? n)%nat && (n <=? 13)%nat) || (n =? 32)%nat || (n =? 160)%nat.

Fixpoint trim_start (s : list ascii) : list ascii :=
  match s with
  | c :: s' => if is_ws c then trim_start s' else s
  | [] => []
  end.

Definition signed (neg : bool) (m : Z) : Z := if neg then - m else m.

Definition read_sign (s : list ascii) : bool * list ascii :=
  match s with
  | c :: r =>
      if Ascii.eqb c "-" then (true, r)
      else if Ascii.eqb c "+" then (false, r)
      else (false, s)
  | [] => (false, [])
  end.

Fixpoint starts_with (p s : list ascii) : bool :=
  match p, s with
  | [], _ => true
  | a :: p', b :: s' => Ascii.eqb a b && starts_with p' s'
  | _ :: _, [] => false
  end.

(** Reads the longest run of decimal digits: the accumulated value, the
    number of digits read and the rest of the input. *)
Fixpoint read_digits (acc : Z) (s : list ascii) : Z * nat * list ascii :=
  match s with
  | c :: s' =>
      match digit_val c with
      | Some d => let '(v, k, r) := read_digits (10 * acc + d) s' in (v, S k, r)
      | None => (acc, O, s)
      end
  | [] => (acc, O, [])
  end.

Fixpoint read_hex (acc : Z) (s : list ascii) : Z * nat * list ascii :=
  match s with
  | c :: s' =>
      match hex_val c with
      | Some d => let '(v, k, r) := read_hex (16 * acc + d) s' in (v, S k, r)
      | None => (acc, O, s)
      end
  | [] => (acc, O, [])
  end.

(** ExponentPart: [e] or [E], an optional sign and at least one digit;
    anything else is not part of the literal. *)
Definition read_exponent (s : list ascii) : Z :=
  match s with
  | c :: r =>
      if Ascii.eqb c "e" || Ascii.eqb c "E" then
        let '(neg, r1) := read_sign r in
        let '(x, k, _) := read_digits 0 r1 in
        match k with
        | O => 0
        | S _ => if neg then - x else x
        end
      else 0
  | [] => 0
  end.

(** StrDecimalLiteral without its sign: digits, an optional fraction and an
    optional exponent, with a digit before or after the dot; [NaN] when the
    input does not start with one. *)
Definition parse_decimal (neg : bool) (s1 : list ascii) : number :=
  let '(m1, k1, s2) := read_digits 0 s1 in
  let '(m2, k2, s3) :=
    match s2 with
    | c :: r => if Ascii.eqb c "." then read_digits m1 r else (m1, O, s2)
    | [] => (m1, O, s2)
    end in
  match (k1 + k2)%nat with
  | O => NaN
  | S _ => decimal (signed neg m2) (read_exponent s3 - Z.of_nat k2)
  end.

(** The longest prefix of the trimmed input that is a StrDecimalLiteral;
    [NaN] when there is none. *)
Definition parse_float (s : list ascii) : number :=
  let '(neg, s1) := read_sign (trim_start s) in
  if starts_with (list_ascii_of_string "Infinity") s1 then Infinity neg
  else parse_decimal neg s1.

Definition parseFloat (s : string) : number :=
  parse_float (list_ascii_of_string s).

Definition hex_prefix (s : list ascii) : bool :=
  starts_with (list_ascii_of_string "0x") s
  || starts_with (list_ascii_of_string "0X") s.

(** The digits of an integer literal after its sign: radix 16 after [0x]
    or [0X], radix 10 otherwise; [NaN] when there is no digit. *)
Definition parse_integer (neg : bool) (s1 : list ascii) : number :=
  let '(v, k, _) :=
    if hex_prefix s1 then read_hex 0 (skipn 2 s1) else read_digits 0 s1 in
  match k with
  | O => NaN
  | S _ => of_Z (signed neg v)
  end.

(** [Number.parseInt(string)] with no radix. *)
Definition parse_int (s : list ascii) : number :=
  let '(neg, s1) := read_sign (trim_start s) in
  parse_integer neg s1.

Definition parseInt (s : string) : number :=
  parse_int (list_ascii_of_string s).

(** *** Strings with a numeric prefix *)

Definition is_hex (c : ascii) : bool :=
  match hex_val c with Some _ => true | None => false end.

(** The input starts with a decimal literal: a digit, or a dot and a
    digit. *)
Definition decimal_start (s1 : list ascii) : bool :=
  match s1 with
  | c :: r => is_digit c || (Ascii.eqb c "." && negb (stops is_digit r))
  | [] => false
  end.

(** After white space and an optional sign, the string starts with
    [Infinity] or with a decimal literal. *)
Definition has_numeric_prefix (s : string) : bool :=
  let s1 := snd (read_sign (trim_start (list_ascii_of_string s))) in
  starts_with (list_ascii_of_string "Infinity") s1 || decimal_start s1.

(** The input starts with an integer literal: [0x] or [0X] and a
    hexadecimal digit, or a decimal digit. *)
Definition integer_start (s1 : list ascii) : bool :=
  if hex_prefix s1 then negb (stops is_hex (skipn 2 s1))
  else negb (stops is_digit s1).

(** After white space and an optional sign, the string starts with an
    integer literal. *)
Definition has_integer_prefix (s : string) : bool :=
  integer_start (snd (read_sign (trim_start (list_ascii_of_string s)))).

(** A character that can continue a decimal literal after its integer
    digits. *)
Definition continues_decimal (c : ascii) : bool :=
  is_digit c || Ascii.eqb c "." || Ascii.eqb c "e" || Ascii.eqb c "E".

End JsNumber.
Export JsNumber.

(** ** JavaScript strings and arrays of strings *)

Module JsString.

(** Scans for the separator from left to right; [skip] counts the
    characters of a matched separator still to pass over. *)
Fixpoint split_go (sep : list ascii) (skip : nat) (s : list ascii)
  : list (list ascii) :=
  match s with
  | [] => [[]]
  | c :: s' =>
      match skip with
      | S k => split_go sep k s'
      | O =>
          if starts_with sep s then [] :: split_go sep (length sep - 1) s'
          else match split_go sep O s' with
               | piece :: pieces => (c :: piece) :: pieces
               | [] => [[c]]
               end
      end
  end.

(** [String.prototype.split(separator)] with a string separator and no
    limit: the empty separator splits into characters. *)
Definition split_chars (sep s : list ascii) : list (list ascii) :=
  match sep with
  | [] => map (fun c => [c]) s
  | _ :: _ => split_go sep O s
  end.

Definition split (s sep : string) : list string :=
  map string_of_list_ascii
    (split_chars (list_ascii_of_string sep) (list_ascii_of_string s)).

(** [Array.prototype.join(separator)] on an array of strings. *)
Fixpoint join_chars (sep : list ascii) (l : list (list ascii)) : list ascii :=
  match l with
  | [] => []
  | [x] => x
  | x :: rest => x ++ sep ++ join_chars sep rest
  end.

Definition join (l : list string) (sep : string) : string :=
  string_of_list_ascii
    (join_chars (list_ascii_of_string sep) (map list_ascii_of_string l)).

(** [s] has an occurrence of [p]. *)
Fixpoint occurs (p s : list ascii) : bool :=
  starts_with p s || match s with [] => false | _ :: s' => occurs p s' end.

Definition includes (s p : string) : bool :=
  occurs (list_ascii_of_string p) (list_ascii_of_string s).

(** No occurrence of [sep] starts at a character of [x] when [tail]
    follows [x]. *)
Fixpoint no_start (sep x tail : list ascii) : bool :=
  match x with
  | [] => true
  | _ :: x' => negb (starts_with sep (x ++ tail)) && no_start sep x' tail
  end.

(** No occurrence of the separator starts inside [x], also when the
    separator follows [x]. For a separator of one character: [x] does not
    contain it. *)
Definition separable_chars (sep x : list ascii) : bool :=
  negb (occurs sep (x ++ removelast sep)).

Definition separable (sep x : string) : bool :=
  separable_chars (list_ascii_of_string sep) (list_ascii_of_string x).

End JsString.

(** ** JavaScript dates *)

Module JsDate.
Local Open Scope Z_scope.

(** A [Date] holds a time value: an integral number of milliseconds since
    the epoch within 8.64e15 of it, or [NaN] (an invalid date). *)
Record Date : Type := { time : option Z }.

Definition maxTime : Z := 8640000000000000.

(** TimeClip: [NaN] for a non-finite time or one beyond [maxTime], the
    time truncated to an integer otherwise. *)
Definition timeClip (x : number) : option Z :=
  match x with
  | Finite m e =>
      if 0 <=? e then
        let t := m * 10 ^ e in
        if maxTime <? Z.abs t then None else Some t
      else
        if maxTime * 10 ^ (- e) <? Z.abs m then None
        else Some (Z.quot m (10 ^ (- e)))
  | _ => None
  end.

Definition getTime (d : Date) : number :=
  match time d with
  | Some t => of_Z t
  | None => NaN
  end.

Definition setTime (d : Date) (x : number) : Date := {| time := timeClip x |}.

Definition valid_date (d : Date) : Prop :=
  match time d with
  | Some t => Z.abs t <= maxTime
  | None => True
  end.

End JsDate.
Export JsDate.

(** ** JavaScript values *)

(** The values an entity, a hash or a JSON document holds. *)
#[warnings="-register-all"]
Inductive JsValue : Type :=
| JsUndefined
| JsNull
| JsNumber (n : number)
| JsBoolean (b : bool)
| JsString (s : string)
| JsDate (d : Date)
| JsArray (elements : list JsValue)
| JsObject (properties : list (string * JsValue)).

Definition is_undefined (v : JsValue) : bool :=
  match v with JsUndefined => true | _ => false end.

Definition is_null (v : JsValue) : bool :=
  match v with JsNull => true | _ => false end.

(** [record[key]]: [undefined] when the key is missing. *)
Definition get (record : gmap string JsValue) (key : string) : JsValue :=
  default JsUndefined (record !! key).

(** [object.key] on the properties of a plain object. *)
Fixpoint property (properties : list (string * JsValue)) (key : string) : JsValue :=
  match properties with
  | [] => JsUndefined
  | (k, v) :: rest => if String.eqb k key then v else property rest key
  end.

(** ** Schema definitions (schema-definitions.ts) *)

Inductive FieldType : Type :=
| TString        (* 'string' *)
| TText          (* 'text' *)
| TNumber        (* 'number' *)
| TBoolean       (* 'boolean' *)
| TPoint         (* 'point' *)
| TDate          (* 'date' *)
| TStringArray   (* 'string[]' *)
| TObject.       (* 'object' *)

(** The string that [fieldDef.type] holds. *)
Definition type_name (fieldType : FieldType) : string :=
  match fieldType with
  | TString => "string"
  | TText => "text"
  | TNumber => "number"
  | TBoolean => "boolean"
  | TPoint => "point"
  | TDate => "date"
  | TStringArray => "string[]"
  | TObject => "object"
  end.

(** [fieldType === 'string'] and the like. *)
Definition is_type (a b : FieldType) : bool :=
  String.eqb (type_name a) (type_name b).

Record FieldDefinition : Type := {
  type : FieldType;
  alias : option string;
  separator : option string
}.

(** A [SchemaDefinition] in the order [for (let field in schemaDef)] visits
    it. *)
Definition SchemaDefinition : Type := list (string * FieldDefinition).

(** [schemaDef[field]] *)
Fixpoint definition_of (schemaDef : SchemaDefinition) (field : string)
  : option FieldDefinition :=
  match schemaDef with
  | [] => None
  | (name, fieldDef) :: rest =>
      if String.eqb name field then Some fieldDef else definition_of rest field
  end.

(** [for (let field in schemaDef) body]: the body sees the field and
    [schemaDef[field]] and updates the record under construction; a [throw]
    leaves the loop. *)
Fixpoint for_in {F : Type} (schemaDef : list (string * F))
    (body : string -> F -> gmap string JsValue -> result (gmap string JsValue))
    (record : gmap string JsValue) : result (gmap string JsValue) :=
  match schemaDef with
  | [] => Ok record
  | (field, fieldDef) :: rest =>
      record' <- body field fieldDef record ;; for_in rest body record'
  end.

Record Point : Type := { longitude : number; latitude : number }.

(** The object literal [{ longitude, latitude }]. *)
Definition point_object (longitude latitude : JsValue) : JsValue :=
  JsObject [("longitude", longitude); ("latitude", latitude)].

Definition JsPoint (p : Point) : JsValue :=
  point_object (JsNumber (longitude p)) (JsNumber (latitude p)).

Definition JsStringArray (l : list string) : JsValue := JsArray (map JsString l).

(** *** Casts *)

Definition as_number (v : JsValue) : result number :=
  match v with JsNumber n => Ok n | _ => IllTyped end.

Definition as_boolean (v : JsValue) : result bool :=
  match v with JsBoolean b => Ok b | _ => IllTyped end.

Definition as_string (v : JsValue) : result string :=
  match v with JsString s => Ok s | _ => IllTyped end.

Definition as_Date (v : JsValue) : result Date :=
  match v with JsDate d => Ok d | _ => IllTyped end.

Definition as_string_array (v : JsValue) : result (list string) :=
  match v with JsArray l => mapM as_string l | _ => IllTyped end.

(** [value as Point] read through [let {longitude, latitude} = value]. *)
Definition as_Point (v : JsValue) : result Point :=
  match v with
  | JsObject properties =>
      lon <- as_number (property properties "longitude") ;;
      lat <- as_number (property properties "latitude") ;;
      Ok {| longitude := lon; latitude := lat |}
  | _ => IllTyped
  end.

(** *** The values of each field type *)

Definition valid_dateb (d : Date) : bool :=
  match time d with
  | Some t => (Z.abs t <=? maxTime)%Z
  | None => true
  end.

Definition is_string (v : JsValue) : bool :=
  match v with JsString _ => true | _ => false end.

(** The values Entity Data holds for a field of the type: those the
    property setter stores. Numbers are canonical decimals. *)
Definition representable (fieldType : FieldType) (v : JsValue) : bool :=
  match fieldType, v with
  | TNumber, JsNumber n => canonicalb n
  | TBoolean, JsBoolean _ => true
  | TString, JsString _ => true
  | TText, JsString _ => true
  | TPoint, JsObject [(k1, JsNumber lon); (k2, JsNumber lat)] =>
      String.eqb k1 "longitude" && String.eqb k2 "latitude"
      && canonicalb lon && canonicalb lat
  | TDate, JsDate d => valid_dateb d
  | TStringArray, JsArray elements => forallb is_string elements
  | TObject, JsUndefined => false
  | TObject, JsNull => false
  | TObject, _ => true
  | _, _ => false
  end.

(** The values of the type that the flat encoding carries without loss: a
    number other than [NaN], a valid date, and an array of strings that is
    not empty, is joined by a separator that is not empty, and whose
    elements are separable by it. *)
Definition flat_encodable (fieldDef : FieldDefinition) (v : JsValue) : bool :=
  match type fieldDef, v with
  | TNumber, JsNumber n => negb (isNaN n)
  | TDate, JsDate d => match time d with Some _ => true | None => false end
  | TStringArray, JsArray elements =>
      let sep := default "|" (separator fieldDef) in
      negb (String.eqb sep "")
      && match elements with [] => false | _ :: _ => true end
      && forallb (fun x => match x with
                           | JsString s => JsString.separable sep s
                           | _ => false
                           end) elements
  | _, _ => true
  end.

(** ** The converters (HashConverter, JsonConverter and their tables) *)

Module Converter.

Definition pointToString (value : Point) : string :=
  toString (longitude value) +:+ "," +:+ toString (latitude value).

Definition dateToString (value : Date) : string := toString (getTime value).

Definition dateToNumber (value : Date) : number := getTime value.

Definition stringArrayToString (value : list string) (fieldDef : FieldDefinition)
  : string :=
  JsString.join value (default "|" (separator fieldDef)).

Definition stringToNumber (value : string) : result number :=
  let number := parseFloat value in
  if negb (isNaN number) then Ok number
  else Throw (Error ("Non-numeric value of '" +:+ value
                     +:+ "' read from Redis for number field.")).

Definition stringToBoolean (value : string) : result bool :=
  if String.eqb value "0" then Ok false
  else if String.eqb value "1" then Ok true
  else Throw (Error ("Non-boolean value of '" +:+ value
                     +:+ "' read from Redis for boolean field.")).

(** [value.split(',').map(Number.parseFloat)] destructured into its first
    two elements; a missing element is [undefined]. *)
Definition stringToPoint (value : string) : JsValue :=
  let parsed := map (fun part => JsNumber (parseFloat part)) (JsString.split value ",") in
  point_object (nth 0 parsed JsUndefined) (nth 1 parsed JsUndefined).

(** [new Date()] followed by [date.setTime(value)]: only the time set
    remains. *)
Definition numberToDate (value : number) : Date :=
  setTime {| time := None |} value.

Definition stringToDate (value : string) : result Date :=
  let parsed := parseInt value in
  if isNaN parsed then
    Throw (Error ("Non-numeric value of '" +:+ value
                  +:+ "' read from Redis for date field."))
  else Ok (setTime {| time := None |} parsed).

Definition stringToStringArray (value : string) (fieldDef : FieldDefinition)
  : list string :=
  JsString.split value (default "|" (separator fieldDef)).

Definition toHashConverters (fieldType : FieldType) (value : JsValue)
    (fieldDef : FieldDefinition) : result JsValue :=
  match fieldType with
  | TNumber => n <- as_number value ;; Ok (JsString (toString n))
  | TBoolean => b <- as_boolean value ;; Ok (JsString (if b then "1" else "0"))
  | TString => s <- as_string value ;; Ok (JsString s)
  | TText => s <- as_string value ;; Ok (JsString s)
  | TPoint => p <- as_Point value ;; Ok (JsString (pointToString p))
  | TDate => d <- as_Date value ;; Ok (JsString (dateToString d))
  | TStringArray =>
      l <- as_string_array value ;; Ok (JsString (stringArrayToString l fieldDef))
  | TObject => Ok value
  end.

Definition fromHashConverters (fieldType : FieldType) (value : JsValue)
    (fieldDef : FieldDefinition) : result JsValue :=
  match fieldType with
  | TNumber => s <- as_string value ;; n <- stringToNumber s ;; Ok (JsNumber n)
  | TBoolean => s <- as_string value ;; b <- stringToBoolean s ;; Ok (JsBoolean b)
  | TString => s <- as_string value ;; Ok (JsString s)
  | TText => s <- as_string value ;; Ok (JsString s)
  | TPoint => s <- as_string value ;; Ok (stringToPoint s)
  | TDate => s <- as_string value ;; d <- stringToDate s ;; Ok (JsDate d)
  | TStringArray =>
      s <- as_string value ;; Ok (JsStringArray (stringToStringArray s fieldDef))
  | TObject => Ok value
  end.

Definition toJsonConverters (fieldType : FieldType) (value : JsValue)
  : result JsValue :=
  match fieldType with
  | TNumber => Ok value
  | TBoolean => Ok value
  | TString => Ok value
  | TText => Ok value
  | TPoint => p <- as_Point value ;; Ok (JsString (pointToString p))
  | TDate => d <- as_Date value ;; Ok (JsNumber (dateToNumber d))
  | TStringArray => Ok value
  | TObject => Ok value
  end.

Definition fromJsonConverters (fieldType : FieldType) (value : JsValue)
  : result JsValue :=
  match fieldType with
  | TNumber => Ok value
  | TBoolean => Ok value
  | TString => Ok value
  | TText => Ok value
  | TPoint => s <- as_string value ;; Ok (stringToPoint s)
  | TDate => n <- as_number value ;; Ok (JsDate (numberToDate n))
  | TStringArray => Ok value
  | TObject => Ok value
  end.

(** *** HashConverter *)

Module HashConverter.

(** The body of [for (let fieldName in this.schemaDef)] in [toHashData]. *)
Definition toHashData_field (entityData : gmap string JsValue)
    (fieldName : string) (fieldDef : FieldDefinition)
    (hashData : gmap string JsValue) : result (gmap string JsValue) :=
  let entityValue := get entityData fieldName in
  let fieldType := type fieldDef in
  if negb (is_undefined entityValue) then
    v <- toHashConverters fieldType entityValue fieldDef ;;
    Ok (<[fieldName := v]> hashData)
  else Ok hashData.

Definition toHashData (schemaDef : SchemaDefinition)
    (entityData : gmap string JsValue) : result (gmap string JsValue) :=
  for_in schemaDef (toHashData_field entityData) ∅.

Definition toEntityData_field (hashData : gmap string JsValue)
    (fieldName : string) (fieldDef : FieldDefinition)
    (entityData : gmap string JsValue) : result (gmap string JsValue) :=
  let hashValue := get hashData fieldName in
  let fieldType := type fieldDef in
  if negb (is_undefined hashValue) then
    v <- fromHashConverters fieldType hashValue fieldDef ;;
    Ok (<[fieldName := v]> entityData)
  else Ok entityData.

Definition toEntityData (schemaDef : SchemaDefinition)
    (hashData : gmap string JsValue) : result (gmap string JsValue) :=
  for_in schemaDef (toEntityData_field hashData) ∅.

End HashConverter.

(** *** JsonConverter *)

Module JsonConverter.

Definition toJsonData_field (entityData : gmap string JsValue)
    (fieldName : string) (fieldDef : FieldDefinition)
    (jsonData : gmap string JsValue) : result (gmap string JsValue) :=
  let fieldValue := get entityData fieldName in
  let fieldType := type fieldDef in
  if negb (is_undefined fieldValue) then
    v <- toJsonConverters fieldType fieldValue ;;
    Ok (<[fieldName := v]> jsonData)
  else Ok jsonData.

Definition toJsonData (schemaDef : SchemaDefinition)
    (entityData : gmap string JsValue) : result (gmap string JsValue) :=
  for_in schemaDef (toJsonData_field entityData) ∅.

Definition toEntityData_field (jsonData : gmap string JsValue)
    (fieldName : string) (fieldDef : FieldDefinition)
    (entityData : gmap string JsValue) : result (gmap string JsValue) :=
  let jsonValue := get jsonData fieldName in
  let fieldType := type fieldDef in
  if negb (is_undefined jsonValue) && negb (is_null jsonValue) then
    v <- fromJsonConverters fieldType jsonValue ;;
    Ok (<[fieldName := v]> entityData)
  else Ok entityData.

(** [jsonData] is [None] for [null]. *)
Definition toEntityData (schemaDef : SchemaDefinition)
    (jsonData : option (gmap string JsValue)) : result (gmap string JsValue) :=
  match jsonData with
  | None => Ok ∅
  | Some jsonData => for_in schemaDef (toEntityData_field jsonData) ∅
  end.

End JsonConverter.

End Converter.

(** ** Conversions of the runtime used on untyped values *)

Section Runtime.

(** [Date.prototype.toString] prints in the local time zone: it is taken
    from the runtime. *)
Variable Date_toString : Date -> string.

(** ToString, as a template literal applies it. Inside an array, [null] and
    [undefined] print as the empty string. *)
Fixpoint ToString (v : JsValue) : string :=
  match v with
  | JsUndefined => "undefined"
  | JsNull => "null"
  | JsNumber n => toString n
  | JsBoolean b => if b then "true" else "false"
  | JsString s => s
  | JsDate d => Date_toString d
  | JsArray elements =>
      JsString.join
        (map (fun x => match x with
                       | JsUndefined | JsNull => ""
                       | _ => ToString x
                       end) elements) ","
  | JsObject _ => "[object Object]"
  end.

(** [v.toString()]: a [TypeError] on [null] and [undefined]. *)
Definition toString_method (v : JsValue) : result string :=
  match v with
  | JsUndefined | JsNull => Throw TypeError
  | _ => Ok (ToString v)
  end.

(** ToBoolean, as a conditional applies it. *)
Definition truthy (v : JsValue) : bool :=
  match v with
  | JsUndefined | JsNull => false
  | JsBoolean b => b
  | JsNumber NaN => false
  | JsNumber (Finite m _) => negb (m =? 0)%Z
  | JsNumber (Infinity _) => true
  | JsString s => negb (String.eqb s "")
  | _ => true
  end.

End Runtime.

(** ** lib/repository/hash-converter.ts *)

Module LegacyHashConverter.

Section WithRuntime.
Variable Date_toString : Date -> string.
Let toString_method := toString_method Date_toString.

Inductive FieldType : Type :=
| TNumber | TBoolean | TArray | TString | TDate | TGeoPoint.

Record FieldDefinition : Type := {
  type : FieldType;
  separator : option string
}.

Definition toHashData_field (entityData : gmap string JsValue)
    (field : string) (fieldDef : FieldDefinition)
    (hashData : gmap string JsValue) : result (gmap string JsValue) :=
  let value := get entityData field in
  if negb (is_undefined value) then
    match type fieldDef with
    | TNumber => s <- toString_method value ;; Ok (<[field := JsString s]> hashData)
    | TBoolean => Ok (<[field := JsString (if truthy value then "1" else "0")]> hashData)
    | TArray =>
        l <- as_string_array value ;;
        Ok (<[field := JsString (JsString.join l (default "|" (separator fieldDef)))]> hashData)
    | TString => Ok (<[field := value]> hashData)
    | TDate =>
        d <- as_Date value ;;
        Ok (<[field := JsString (toString (getTime d))]> hashData)
    | TGeoPoint =>
        p <- as_Point value ;;
        Ok (<[field := JsString (toString (longitude p) +:+ "," +:+ toString (latitude p))]> hashData)
    end
  else Ok hashData.

Definition toHashData (schemaDef : list (string * FieldDefinition))
    (entityData : gmap string JsValue) : result (gmap string JsValue) :=
  for_in schemaDef (toHashData_field entityData) ∅.

Definition addNumber (field : string) (entityData : gmap string JsValue)
    (value : string) : result (gmap string JsValue) :=
  let parsed := parseFloat value in
  if isNaN parsed then
    Throw (Error ("Non-numeric value of '" +:+ value
                  +:+ "' read from Redis for number field '" +:+ field +:+ "'"))
  else Ok (<[field := JsNumber (parseFloat value)]> entityData).

Definition addBoolean (field : string) (entityData : gmap string JsValue)
    (value : string) : result (gmap string JsValue) :=
  if String.eqb value "0" then Ok (<[field := JsBoolean false]> entityData)
  else if String.eqb value "1" then Ok (<[field := JsBoolean true]> entityData)
  else Throw (Error ("Non-boolean value of '" +:+ value
                     +:+ "' read from Redis for boolean field '" +:+ field +:+ "'")).

Definition addArray (field : string) (fieldDef : FieldDefinition)
    (entityData : gmap string JsValue) (value : string) : result (gmap string JsValue) :=
  Ok (<[field := JsStringArray (JsString.split value (default "|" (separator fieldDef)))]>
        entityData).

Definition addString (field : string) (entityData : gmap string JsValue)
    (value : string) : result (gmap string JsValue) :=
  Ok (<[field := JsString value]> entityData).

Definition addDate (field : string) (entityData : gmap string JsValue)
    (value : string) : result (gmap string JsValue) :=
  let parsed := parseInt value in
  if isNaN parsed then
    Throw (Error ("Non-numeric value of '" +:+ value
                  +:+ "' read from Redis for date field '" +:+ field +:+ "'"))
  else Ok (<[field := JsDate (setTime {| time := None |} parsed)]> entityData).

Definition addGeoPoint (field : string) (entityData : gmap string JsValue)
    (value : string) : result (gmap string JsValue) :=
  let parsed := map (fun part => JsNumber (parseFloat part)) (JsString.split value ",") in
  Ok (<[field := point_object (nth 0 parsed JsUndefined) (nth 1 parsed JsUndefined)]>
        entityData).

Definition toEntityData_field (hashData : gmap string JsValue)
    (field : string) (fieldDef : FieldDefinition)
    (entityData : gmap string JsValue) : result (gmap string JsValue) :=
  let value := get hashData field in
  if negb (is_undefined value) then
    value <- as_string value ;;
    match type fieldDef with
    | TNumber => addNumber field entityData value
    | TBoolean => addBoolean field entityData value
    | TArray => addArray field fieldDef entityData value
    | TString => addString field entityData value
    | TDate => addDate field entityData value
    | TGeoPoint => addGeoPoint field entityData value
    end
  else Ok entityData.

Definition toEntityData (schemaDef : list (string * FieldDefinition))
    (hashData : gmap string JsValue) : result (gmap string JsValue) :=
  for_in schemaDef (toEntityData_field hashData) ∅.

End WithRuntime.

End LegacyHashConverter.

(** ** The entity properties [Schema.defineProperties] installs *)

Module EntityProperty.

Section WithRuntime.
(** [new Date(string)] parses by rules of the engine: it is taken from the
    runtime, as [Date.prototype.toString] is. *)
Variable Date_toString : Date -> string.
Variable Date_parse : string -> Date.
Let ToString := ToString Date_toString.
Let toString_method := toString_method Date_toString.

Definition isString (value : JsValue) : bool :=
  match value with JsString _ => true | _ => false end.

Definition isNumber (value : JsValue) : bool :=
  match value with JsNumber _ => true | _ => false end.

Definition isBoolean (value : JsValue) : bool :=
  match value with JsBoolean _ => true | _ => false end.

Definition isDate (value : JsValue) : bool :=
  match value with JsDate _ => true | _ => false end.

Definition isArray (value : JsValue) : bool :=
  match value with JsArray _ => true | _ => false end.

Definition isStringable (value : JsValue) : bool :=
  isString value || isNumber value || isBoolean value.

Definition isDateable (value : JsValue) : bool :=
  isDate value || isString value || isNumber value.

(** [value.longitude] on a value that is neither [null] nor [undefined]. *)
Definition member (value : JsValue) (key : string) : JsValue :=
  match value with
  | JsObject properties => property properties key
  | _ => JsUndefined
  end.

Definition isPoint (value : JsValue) : bool :=
  isNumber (member value "longitude") && isNumber (member value "latitude").

Definition fieldAlias (field : string) (fieldDef : FieldDefinition) : string :=
  default field (alias fieldDef).

(** The [get] accessor of the property [field]. *)
Definition getter (field : string) (fieldDef : FieldDefinition)
    (entityData : gmap string JsValue) : JsValue :=
  match get entityData (fieldAlias field fieldDef) with
  | JsUndefined | JsNull => JsNull
  | v => v
  end.

(** The [set] accessor of the property [field] of [entityName]: the entity
    data after the assignment, or the error thrown. *)
Definition setter (entityName field : string) (fieldDef : FieldDefinition)
    (entityData : gmap string JsValue) (value : JsValue)
  : result (gmap string JsValue) :=
  let fieldType := type fieldDef in
  let fieldAlias := fieldAlias field fieldDef in
  if is_undefined value then
    Throw (Error ("Property '" +:+ field +:+ "' on entity of type '" +:+ entityName
                  +:+ "' cannot be set to undefined. Use null instead."))
  else if is_null value then Ok (delete fieldAlias entityData)
  else if is_type fieldType TString && isStringable value then
    Ok (<[fieldAlias := JsString (ToString value)]> entityData)
  else if is_type fieldType TObject then
    Ok (<[fieldAlias := value]> entityData)
  else if is_type fieldType TText && isStringable value then
    Ok (<[fieldAlias := JsString (ToString value)]> entityData)
  else if is_type fieldType TNumber && isNumber value then
    Ok (<[fieldAlias := value]> entityData)
  else if is_type fieldType TBoolean && isBoolean value then
    Ok (<[fieldAlias := value]> entityData)
  else if is_type fieldType TPoint && isPoint value then
    Ok (<[fieldAlias := point_object (member value "longitude") (member value "latitude")]>
          entityData)
  else if is_type fieldType TDate && isDateable value && isDate value then
    Ok (<[fieldAlias := value]> entityData)
  else if is_type fieldType TDate && isDateable value && isString value then
    match value with
    | JsString s => Ok (<[fieldAlias := JsDate (Date_parse s)]> entityData)
    | _ => IllTyped
    end
  else if is_type fieldType TDate && isDateable value && isNumber value then
    match value with
    | JsNumber n => Ok (<[fieldAlias := JsDate (setTime {| time := None |} n)]> entityData)
    | _ => IllTyped
    end
  else if is_type fieldType TStringArray && isArray value then
    match value with
    | JsArray elements =>
        strings <- mapM toString_method elements ;;
        Ok (<[fieldAlias := JsStringArray strings]> entityData)
    | _ => IllTyped
    end
  else
    Throw (RedisError ("Property '" +:+ field +:+ "' expected type of '"
                       +:+ type_name fieldType +:+ "' but received value of '"
                       +:+ ToString value +:+ "'.")).

End WithRuntime.

End EntityProperty.

(** ** Schema (schema.ts) and SchemaBuilder (schema-builder.ts) *)

Inductive SearchDataStructure : Type := HASH | JSON.

(** The members of a [Schema] the builder and the search read. *)
Record Schema : Type := {
  definition : SchemaDefinition;
  dataStructure : SearchDataStructure
}.

Module SchemaBuilder.

(** [if (cond) schemaEntry.push(...items)] *)
Definition push_if (cond : bool) (items schemaEntry : list string) : list string :=
  if cond then schemaEntry ++ items else schemaEntry.

Definition buildHashSchemaEntry (field : string) (fieldDef : FieldDefinition)
  : list string :=
  let fieldType := type fieldDef in
  let fieldAlias := default field (alias fieldDef) in
  let schemaEntry := [fieldAlias] in
  let schemaEntry := push_if (is_type fieldType TDate) ["NUMERIC"] schemaEntry in
  let schemaEntry := push_if (is_type fieldType TBoolean) ["TAG"] schemaEntry in
  let schemaEntry := push_if (is_type fieldType TNumber) ["NUMERIC"] schemaEntry in
  let schemaEntry := push_if (is_type fieldType TPoint) ["GEO"] schemaEntry in
  let schemaEntry :=
    push_if (is_type fieldType TStringArray)
      ["TAG"; "SEPARATOR"; default "|" (separator fieldDef)] schemaEntry in
  let schemaEntry :=
    push_if (is_type fieldType TString)
      ["TAG"; "SEPARATOR"; default "|" (separator fieldDef)] schemaEntry in
  let schemaEntry := push_if (is_type fieldType TText) ["TEXT"] schemaEntry in
  schemaEntry.

Definition buildJsonSchemaEntry (field : string) (fieldDef : FieldDefinition)
  : list string :=
  let fieldType := type fieldDef in
  let fieldAlias := default field (alias fieldDef) in
  let fieldPath :=
    "$." +:+ fieldAlias +:+ (if is_type fieldType TStringArray then "[*]" else "") in
  let schemaEntry := [fieldPath; "AS"; fieldAlias] in
  let schemaEntry := push_if (is_type fieldType TBoolean) ["TAG"] schemaEntry in
  let schemaEntry := push_if (is_type fieldType TNumber) ["NUMERIC"] schemaEntry in
  let schemaEntry := push_if (is_type fieldType TPoint) ["GEO"] schemaEntry in
  let schemaEntry := push_if (is_type fieldType TDate) ["NUMERIC"] schemaEntry in
  let schemaEntry := push_if (is_type fieldType TStringArray) ["TAG"] schemaEntry in
  let schemaEntry :=
    push_if (is_type fieldType TString)
      ["TAG"; "SEPARATOR"; default "|" (separator fieldDef)] schemaEntry in
  let schemaEntry := push_if (is_type fieldType TText) ["TEXT"] schemaEntry in
  schemaEntry.

(** The entries one per field, before [push(...entry)] flattens them. *)
Definition hashSchemaEntries (schemaDef : SchemaDefinition) : list (list string) :=
  map (fun '(field, fieldDef) => buildHashSchemaEntry field fieldDef) schemaDef.

Definition jsonSchemaEntries (schemaDef : SchemaDefinition) : list (list string) :=
  map (fun '(field, fieldDef) => buildJsonSchemaEntry field fieldDef) schemaDef.

Definition buildHashSchema (schema : Schema) : list string :=
  concat (hashSchemaEntries (definition schema)).

Definition buildJsonSchema (schema : Schema) : list string :=
  concat (jsonSchemaEntries (definition schema)).

Definition redisSchema (schema : Schema) : list string :=
  match dataStructure schema with
  | JSON => buildJsonSchema schema
  | HASH => buildHashSchema schema
  end.

End SchemaBuilder.

(** ** Search (search.ts) *)

Module Search.

(** The subclass of [WhereField] that [createWhere] instantiates. *)
Inductive WhereClass : Type :=
| WhereHashBoolean | WhereJsonBoolean | WhereDate | WhereNumber
| WherePoint | WhereText | WhereString | WhereStringArray.

(** Modelled from the spec: the leaf classes ([where-field.ts] and its
    subclasses) are not among the sources. A leaf is built for a field and
    finalized by one operator call with its operands. *)
Record Operation : Type := { operator : string; operands : list JsValue }.

Record WhereField : Type := {
  whereClass : WhereClass;
  field : string;
  operation : option Operation
}.

(** The predicate tree. A leaf is a reference to the [WhereField] object:
    the object enters the tree before its operator is called. *)
Inductive Where : Type :=
| WhereRef (ref : nat)
| WhereAnd (left right : Where)
| WhereOr (left right : Where).

(** [type AndOrConstructor = new (left: Where, right: Where) => Where] *)
Definition AndOrConstructor : Type := Where -> Where -> Where.

Record Search : Type := {
  schema : Schema;
  rootWhere : option Where;
  objects : list WhereField
}.

(** [new Search(schema, client)]; the store of leaf objects is the one of
    the program. *)
Definition new_Search (schema : Schema) (objects : list WhereField) : Search :=
  {| schema := schema; rootWhere := None; objects := objects |}.

Definition SubSearchFunction : Type := Search -> result Search.

Definition is_dataStructure (a b : SearchDataStructure) : bool :=
  match a, b with
  | HASH, HASH | JSON, JSON => true
  | _, _ => false
  end.

Definition createWhere (this : Search) (field : string) : result WhereField :=
  let new c := Ok {| whereClass := c; field := field; operation := None |} in
  match definition_of (definition (schema this)) field with
  | None => Throw (Error ("The field '" +:+ field +:+ "' is not part of the schema."))
  | Some fieldDef =>
      let dataStructure := dataStructure (schema this) in
      if is_type (type fieldDef) TBoolean && is_dataStructure dataStructure HASH
      then new WhereHashBoolean
      else if is_type (type fieldDef) TBoolean && is_dataStructure dataStructure JSON
      then new WhereJsonBoolean
      else if is_type (type fieldDef) TDate then new WhereDate
      else if is_type (type fieldDef) TNumber then new WhereNumber
      else if is_type (type fieldDef) TPoint then new WherePoint
      else if is_type (type fieldDef) TText then new WhereText
      else if is_type (type fieldDef) TString then new WhereString
      else if is_type (type fieldDef) TStringArray then new WhereStringArray
      else
        Throw (Error ("The field type of '" +:+ type_name (type fieldDef)
          +:+ "' is not a valid field type. Valid types include 'boolean', 'date', 'number', 'point', 'string', and 'string[]'."))
  end.

(** Returns the reference to the new leaf and the search after the call. *)
Definition anyWhereForField (this : Search) (ctor : AndOrConstructor)
    (field : string) : result (nat * Search) :=
  where_ <- createWhere this field ;;
  let ref := length (objects this) in
  let objects := objects this ++ [where_] in
  let rootWhere :=
    match rootWhere this with
    | None => WhereRef ref
    | Some root => ctor root (WhereRef ref)
    end in
  Ok (ref, {| schema := schema this; rootWhere := Some rootWhere; objects := objects |}).

Definition anyWhereForFunction (this : Search) (ctor : AndOrConstructor)
    (subSearchFn : SubSearchFunction) : result Search :=
  let search := new_Search (schema this) (objects this) in
  subSearch <- subSearchFn search ;;
  match rootWhere subSearch with
  | None => Throw (Error "Sub-search without and root where was somehow defined.")
  | Some subRoot =>
      let rootWhere :=
        match rootWhere this with
        | None => subRoot
        | Some root => ctor root subRoot
        end in
      Ok {| schema := schema this; rootWhere := Some rootWhere;
            objects := objects subSearch |}
  end.

(** [where], [and] and [or] with a field name, and with a function. *)
Definition where_ (this : Search) (field : string) : result (nat * Search) :=
  anyWhereForField this WhereAnd field.

Definition and_ (this : Search) (field : string) : result (nat * Search) :=
  anyWhereForField this WhereAnd field.

Definition or_ (this : Search) (field : string) : result (nat * Search) :=
  anyWhereForField this WhereOr field.

Definition where_fn (this : Search) (fn : SubSearchFunction) : result Search :=
  anyWhereForFunction this WhereAnd fn.

Definition and_fn (this : Search) (fn : SubSearchFunction) : result Search :=
  anyWhereForFunction this WhereAnd fn.

Definition or_fn (this : Search) (fn : SubSearchFunction) : result Search :=
  anyWhereForFunction this WhereOr fn.

(** Modelled from the spec: the operator methods of the leaf classes are
    not among the sources. A call such as [.eq(1)] on the leaf [ref]
    records the operator and its operands in that leaf and returns the
    search the leaf belongs to. *)
Definition call_operator (this : Search) (ref : nat) (op : Operation) : Search :=
  {| schema := schema this;
     rootWhere := rootWhere this;
     objects := alter (fun leaf => {| whereClass := whereClass leaf;
                                      field := field leaf;
                                      operation := Some op |}) ref (objects this) |}.

Definition eq (value : JsValue) : Operation :=
  {| operator := "eq"; operands := [value] |}.

Section Rendering.

(** The query syntax of a leaf, per class of leaf and operator. *)
Variable leafToString : WhereField -> string.

(** Modelled from the spec: [where-and.ts] and [where-or.ts] are not among
    the sources. A combinator renders as [(left AND right)] or
    [(left OR right)], always parenthesized. *)
Fixpoint Where_toString (objects : list WhereField) (w : Where) : string :=
  match w with
  | WhereRef ref =>
      match objects !! ref with
      | Some leaf => leafToString leaf
      | None => ""
      end
  | WhereAnd l r =>
      "(" +:+ Where_toString objects l +:+ " AND "
          +:+ Where_toString objects r +:+ ")"
  | WhereOr l r =>
      "(" +:+ Where_toString objects l +:+ " OR "
          +:+ Where_toString objects r +:+ ")"
  end.

(** [get query()] *)
Definition query (this : Search) : string :=
  match rootWhere this with
  | None => "*"
  | Some root => Where_toString (objects this) root
  end.

End Rendering.

(** Modelled from the spec: the leaf syntax of its example, [{a}=1] for
    [where("a").eq(1)]; a leaf with no operator yet has no condition. *)
Definition example_leafToString (leaf : WhereField) : string :=
  match operation leaf with
  | Some {| operator := "eq"; operands := [JsNumber n] |} =>
      "{" +:+ field leaf +:+ "}=" +:+ toString n
  | _ => "{" +:+ field leaf +:+ "}"
  end.

(** *** Chains of calls *)

Inductive Method : Type := where_method | and_method | or_method.

Definition constructor_of (m : Method) : AndOrConstructor :=
  match m with
  | where_method => WhereAnd
  | and_method => WhereAnd
  | or_method => WhereOr
  end.

(** One link of a chain: [.m(field).operator(operands)], or [.m(fn)]. *)
Inductive Call : Type :=
| CallField (m : Method) (field : string) (op : Operation)
| CallFunction (m : Method) (fn : SubSearchFunction).

Definition call (this : Search) (c : Call) : result Search :=
  match c with
  | CallField m field op =>
      r <- anyWhereForField this (constructor_of m) field ;;
      Ok (call_operator (snd r) (fst r) op)
  | CallFunction m fn => anyWhereForFunction this (constructor_of m) fn
  end.

Fixpoint chain (this : Search) (calls : list Call) : result Search :=
  match calls with
  | [] => Ok this
  | c :: rest => this' <- call this c ;; chain this' rest
  end.

End Search.

(** ** Well-typed entity data, and the inputs of the examples *)

(** Every field the schema declares is unset or holds a representable
    value of its type. *)
Definition well_typed (schemaDef : SchemaDefinition)
    (entityData : gmap string JsValue) : Prop :=
  forall field fieldDef, In (field, fieldDef) schemaDef ->
    get entityData field = JsUndefined
    \/ representable (type fieldDef) (get entityData field) = true.

Module Examples.
Local Open Scope Z_scope.

(** A field definition [{ type }]. *)
Definition plain (t : FieldType) : FieldDefinition :=
  {| type := t; alias := None; separator := None |}.

(** The schema of the documentation of [Schema], with an object field. *)
Definition fooSchema : SchemaDefinition :=
  [("aString", plain TString); ("aNumber", plain TNumber);
   ("aBoolean", plain TBoolean); ("someText", plain TText);
   ("aPoint", plain TPoint); ("aDate", plain TDate);
   ("someStrings", plain TStringArray); ("anObject", plain TObject)].

(** [{longitude: -122.27, latitude: 37.80}]: the literal [37.80] denotes
    the number 37.8. *)
Definition aPoint : Point :=
  {| longitude := decimal (-12227) (-2); latitude := decimal 3780 (-2) |}.

(** A schema whose field [aString] is stored under the alias [str]. *)
Definition aliasSchema : SchemaDefinition :=
  [("aString", {| type := TString; alias := Some "str"; separator := None |})].

(** The schema of one string array [tags] with the default separator. *)
Definition tagsSchema : SchemaDefinition := [("tags", plain TStringArray)].

Definition legacyBoolean : list (string * LegacyHashConverter.FieldDefinition) :=
  [("aBoolean", {| LegacyHashConverter.type := LegacyHashConverter.TBoolean;
                   LegacyHashConverter.separator := None |})].

(** The schema of the number fields [a], [b] and [c]. *)
Definition abcSchema : Schema :=
  {| definition := [("a", plain TNumber); ("b", plain TNumber); ("c", plain TNumber)];
     dataStructure := JSON |}.

End Examples.


(* ================================================================== *)
(** * Further definitions: the rest of the cited files *)
(* ================================================================== *)

(** ** Stored values the flat decoding accepts *)

(** What [fromHashConverters] needs of the string stored for a field: a
    numeric prefix for a number, ["0"] or ["1"] for a boolean, an integer
    prefix for a date, and nothing for the other types. An object field
    takes any value. *)
Definition decodable (fieldDef : FieldDefinition) (v : JsValue) : bool :=
  match type fieldDef, v with
  | TObject, _ => true
  | TNumber, JsString s => has_numeric_prefix s
  | TBoolean, JsString s => String.eqb s "0" || String.eqb s "1"
  | TDate, JsString s => has_integer_prefix s
  | _, JsString _ => true
  | _, _ => false
  end.

(** Every field the schema declares is unset or holds a representable
    value that the flat encoding carries. *)
Definition flat_encodable_data (schemaDef : SchemaDefinition)
    (entityData : gmap string JsValue) : Prop :=
  forall field fieldDef, In (field, fieldDef) schemaDef ->
    get entityData field = JsUndefined
    \/ (representable (type fieldDef) (get entityData field) = true
        /\ flat_encodable fieldDef (get entityData field) = true).

(** A value is neither [null] nor [undefined]. *)
Definition is_defined (v : JsValue) : bool :=
  negb (is_undefined v || is_null v).

(** The record after a field wrote [o] at its key, or nothing. *)
Definition write_at (o : option JsValue) (g : string)
    (acc : gmap string JsValue) : gmap string JsValue :=
  match o with
  | Some v => <[g := v]> acc
  | None => acc
  end.

(** The outcomes agree but for the text of the error. *)
Definition same_outcome {A : Type} (r1 r2 : result A) : Prop :=
  match r1, r2 with
  | Ok a, Ok b => a = b
  | Throw _, Throw _ => True
  | IllTyped, IllTyped => True
  | _, _ => False
  end.

(** ** hash-converter.ts beside the converters that replaced it *)

Module LegacyTypes.

(** The field type that took the place of a type of hash-converter.ts. *)
Definition modern_type (t : LegacyHashConverter.FieldType) : FieldType :=
  match t with
  | LegacyHashConverter.TNumber => TNumber
  | LegacyHashConverter.TBoolean => TBoolean
  | LegacyHashConverter.TArray => TStringArray
  | LegacyHashConverter.TString => TString
  | LegacyHashConverter.TDate => TDate
  | LegacyHashConverter.TGeoPoint => TPoint
  end.

Definition modern (fieldDef : LegacyHashConverter.FieldDefinition) : FieldDefinition :=
  {| type := modern_type (LegacyHashConverter.type fieldDef);
     alias := None;
     separator := LegacyHashConverter.separator fieldDef |}.

Definition modern_schema (schemaDef : list (string * LegacyHashConverter.FieldDefinition))
  : SchemaDefinition :=
  map (fun '(field, fieldDef) => (field, modern fieldDef)) schemaDef.

End LegacyTypes.

(** ** The options of a Schema and their validation (schema.ts) *)

Module SchemaClass.

(** [options.idStrategy]: a function, or some other value. *)
Inductive IdStrategyOption : Type :=
| IdFunction
| IdValue (v : JsValue).

(** The options as JavaScript passes them: the data structure and the stop
    word mode are strings that [validateOptions] checks. *)
Record SchemaOptions : Type := {
  prefix_option : option string;
  indexName_option : option string;
  indexHashName_option : option string;
  dataStructure_option : option string;
  useStopWords_option : option string;
  stopWords_option : option (list string);
  idStrategy_option : option IdStrategyOption
}.

(** The members the getters read: [entityCtor.name], the definition and
    the optional options. *)
Record SchemaObject : Type := {
  entityCtor_name : string;
  schemaDefinition : SchemaDefinition;
  options : option SchemaOptions
}.

(** [this.options?.member ?? fallback] *)
Definition option_or {A : Type} (this : SchemaObject)
    (member : SchemaOptions -> option A) (fallback : A) : A :=
  match options this with
  | Some o => default fallback (member o)
  | None => fallback
  end.

Definition prefix (this : SchemaObject) : string :=
  option_or this prefix_option (entityCtor_name this).

Definition indexName (this : SchemaObject) : string :=
  option_or this indexName_option (prefix this +:+ ":index").

Definition indexHashName (this : SchemaObject) : string :=
  option_or this indexHashName_option (prefix this +:+ ":index:hash").

Definition dataStructure (this : SchemaObject) : string :=
  option_or this dataStructure_option "JSON".

Definition useStopWords (this : SchemaObject) : string :=
  option_or this useStopWords_option "DEFAULT".

Definition stopWords (this : SchemaObject) : list string :=
  option_or this stopWords_option [].

(** [array.includes(value)] on strings. *)
Definition includes (values : list string) (value : string) : bool :=
  existsb (String.eqb value) values.

(** [this.options?.idStrategy && !(this.options.idStrategy instanceof Function)] *)
Definition idStrategy_not_function (this : SchemaObject) : bool :=
  match options this with
  | Some o =>
      match idStrategy_option o with
      | Some (IdValue v) => truthy v
      | Some IdFunction => false
      | None => false
      end
  | None => false
  end.

(** [validateOptions]: the first failing check throws. *)
Definition validateOptions (this : SchemaObject) : result unit :=
  if negb (includes ["HASH"; "JSON"] (dataStructure this)) then
    Throw (Error ("'" +:+ dataStructure this
      +:+ "' in an invalid data structure. Valid data structures are 'HASH' and 'JSON'."))
  else if negb (includes ["OFF"; "DEFAULT"; "CUSTOM"] (useStopWords this)) then
    Throw (Error ("'" +:+ useStopWords this
      +:+ "' in an invalid value for stop words. Valid values are 'OFF', 'DEFAULT', and 'CUSTOM'."))
  else if idStrategy_not_function this then
    Throw (Error "ID strategy must be a function that takes no arguments and returns a string.")
  else if String.eqb (prefix this) "" then
    Throw (Error "Prefix must be a non-empty string.")
  else if String.eqb (indexName this) "" then
    Throw (Error "Index name must be a non-empty string.")
  else Ok tt.

(** The data structure of a schema whose options are valid. *)
Definition searchDataStructure (this : SchemaObject) : SearchDataStructure :=
  if String.eqb (dataStructure this) "HASH" then HASH else JSON.

(** What SchemaBuilder and Search read of the schema. *)
Definition to_Schema (this : SchemaObject) : Schema :=
  Build_Schema (schemaDefinition this) (searchDataStructure this).

End SchemaClass.

(** ** AbstractSearch (search.ts): [first] and [all] over [page] *)

Module AbstractSearch.

Section WithPage.
Context {TEntity : Type}.

(** [this.page(offset, count)]: a page of entities, or the error of the
    search. *)
Variable page : nat -> nat -> result (list TEntity).

(** [first]: [foundEntity[0] ?? null], with [None] for [null]. *)
Definition first : result (option TEntity) :=
  foundEntity <- page 0 1 ;; Ok (head foundEntity).

(** The [while (true)] of [all]; each turn takes one unit of fuel, and
    [None] is the loop still running when the fuel is spent. *)
Fixpoint all_loop (fuel pageSize offset : nat) (entities : list TEntity)
  : option (result (list TEntity)) :=
  match fuel with
  | O => None
  | S fuel' =>
      match page offset pageSize with
      | Ok foundEntities =>
          let entities := entities ++ foundEntities in
          if length foundEntities <? pageSize then Some (Ok entities)
          else all_loop fuel' pageSize (offset + pageSize) entities
      | Throw e => Some (Throw e)
      | IllTyped => Some IllTyped
      end
  end.

Definition all (fuel pageSize : nat) : option (result (list TEntity)) :=
  all_loop fuel pageSize 0 [].

End WithPage.

(** A backend that holds [results] and answers [LIMIT offset count]. *)
Definition window {TEntity : Type} (results : list TEntity) (offset count : nat)
  : result (list TEntity) :=
  Ok (take count (drop offset results)).

End AbstractSearch.

(** ** The leaves of a predicate tree *)

Module SearchTree.
Import Search.

(** The leaf references of a tree, from left to right. *)
Fixpoint leaves (w : Where) : list nat :=
  match w with
  | WhereRef ref => [ref]
  | WhereAnd l r => leaves l ++ leaves r
  | WhereOr l r => leaves l ++ leaves r
  end.

(** The leaf references of the tree of a search; none without a root. *)
Definition root_leaves (this : Search) : list nat :=
  match rootWhere this with
  | Some root => leaves root
  | None => []
  end.

Definition is_CallField (c : Call) : bool :=
  match c with CallField _ _ _ => true | CallFunction _ _ => false end.

(** The leaf that [.m(field).operator(operands)] leaves in the store. *)
Definition called_field (c : Call) : string :=
  match c with CallField _ f _ => f | CallFunction _ _ => "" end.

Definition called_operation (c : Call) : option Operation :=
  match c with CallField _ _ op => Some op | CallFunction _ _ => None end.

(** [" AND "] or [" OR "], as the combinator of the method renders. *)
Definition method_infix (m : Method) : string :=
  match m with
  | where_method => " AND "
  | and_method => " AND "
  | or_method => " OR "
  end.

End SearchTree.

(** ** Inputs of the further examples *)

Module MoreExamples.
Import Examples.
Local Open Scope Z_scope.

(** Entity data for [fooSchema], with [aDate] and [anObject] unset and a
    key the schema does not declare. *)
Definition fooEntity : gmap string JsValue :=
  {[ "aString" := JsString "foo";
     "aNumber" := JsNumber (of_Z 42);
     "aBoolean" := JsBoolean false;
     "someText" := JsString "";
     "aPoint" := JsPoint aPoint;
     "someStrings" := JsStringArray ["a"; "b"];
     "other" := JsString "x" ]}.

(** A flat record for [fooSchema]. *)
Definition fooHash : gmap string JsValue :=
  {[ "aString" := JsString "foo";
     "aNumber" := JsString "42";
     "aBoolean" := JsString "0";
     "aDate" := JsString "1622505600000";
     "other" := JsString "x" ]}.

(** The schema of hash-converter.ts that corresponds to the helper
    schema of its tests. *)
Definition legacySchema : list (string * LegacyHashConverter.FieldDefinition) :=
  [("aString", {| LegacyHashConverter.type := LegacyHashConverter.TString;
                  LegacyHashConverter.separator := None |});
   ("aNumber", {| LegacyHashConverter.type := LegacyHashConverter.TNumber;
                  LegacyHashConverter.separator := None |});
   ("aBoolean", {| LegacyHashConverter.type := LegacyHashConverter.TBoolean;
                   LegacyHashConverter.separator := None |});
   ("aGeoPoint", {| LegacyHashConverter.type := LegacyHashConverter.TGeoPoint;
                    LegacyHashConverter.separator := None |});
   ("aDate", {| LegacyHashConverter.type := LegacyHashConverter.TDate;
                LegacyHashConverter.separator := None |});
   ("anArray", {| LegacyHashConverter.type := LegacyHashConverter.TArray;
                  LegacyHashConverter.separator := None |})].

Definition legacyEntity : gmap string JsValue :=
  {[ "aString" := JsString "foo";
     "aNumber" := JsNumber (of_Z 42);
     "aBoolean" := JsBoolean false;
     "aGeoPoint" := JsPoint aPoint;
     "aDate" := JsDate {| time := Some 1622505600000 |};
     "anArray" := JsStringArray ["a"; "b"] ]}.

(** A runtime for the examples: a date prints as its time value, and no
    string parses to a valid date. *)
Definition exampleDate_toString (d : Date) : string := toString (getTime d).

Definition exampleDate_parse (s : string) : Date := {| time := None |}.

End MoreExamples.

(* ================================================================== *)
(** * Properties *)
(* ================================================================== *)

(** ** Numbers: digits, canonical decimals, printing and parsing *)

Module JsNumberFacts.
Local Open Scope Z_scope.

Lemma digit_val_char d : 0 <= d < 10 -> digit_val (digit_char d) = Some d.
Proof.
  intros H.
  assert (d = 0 \/ d = 1 \/ d = 2 \/ d = 3 \/ d = 4 \/ d = 5 \/ d = 6 \/ d = 7
          \/ d = 8 \/ d = 9) as Hd by lia.
  repeat (destruct Hd as [-> | Hd]; [reflexivity |]). subst d. reflexivity.
Qed.

Lemma is_digit_char d : 0 <= d < 10 -> is_digit (digit_char d) = true.
Proof. intros H. unfold is_digit. now rewrite digit_val_char. Qed.

Lemma digit_val_bound c d : digit_val c = Some d -> 0 <= d < 10.
Proof.
  unfold digit_val. destruct (_ && _) eqn:E; [|discriminate].
  intros [= <-]. apply andb_true_iff in E as [E1 E2].
  apply Nat.leb_le in E1, E2. lia.
Qed.

Lemma digits_value_app acc ds1 ds2 :
  digits_value acc (ds1 ++ ds2) = digits_value (digits_value acc ds1) ds2.
Proof. apply fold_left_app. Qed.

Lemma digits_value_shift ds : forall acc,
  digits_value acc ds = acc * 10 ^ Z.of_nat (length ds) + digits_value 0 ds.
Proof.
  induction ds as [|c ds IH]; intros acc.
  - simpl. lia.
  - change (digits_value acc (c :: ds))
      with (digits_value (10 * acc + default 0 (digit_val c)) ds).
    change (digits_value 0 (c :: ds))
      with (digits_value (10 * 0 + default 0 (digit_val c)) ds).
    rewrite IH. rewrite (IH (10 * 0 + _)).
    rewrite length_cons, Nat2Z.inj_succ, Z.pow_succ_r by lia. ring.
Qed.

Lemma digits_value_zeros j acc : digits_value acc (zeros j) = acc * 10 ^ Z.of_nat j.
Proof.
  revert acc. induction j as [|j IH]; intros acc.
  - simpl. lia.
  - change (digits_value acc (zeros (S j))) with (digits_value (10 * acc + 0) (zeros j)).
    rewrite IH, Nat2Z.inj_succ, Z.pow_succ_r by lia. ring.
Qed.

Lemma forallb_zeros j : forallb is_digit (zeros j) = true.
Proof. induction j; simpl; auto. Qed.

Lemma length_zeros j : length (zeros j) = j.
Proof. apply repeat_length. Qed.

(** [read_digits] consumes exactly a run of digits that is followed by a
    character other than a digit. *)
Lemma read_digits_app ds : forall acc rest,
  forallb is_digit ds = true -> stops is_digit rest = true ->
  read_digits acc (ds ++ rest) = (digits_value acc ds, length ds, rest).
Proof.
  induction ds as [|c ds IH]; intros acc rest Hds Hrest.
  - cbn [app length]. destruct rest as [|c r]; [reflexivity|].
    cbn [stops] in Hrest. unfold is_digit in Hrest. cbn [read_digits].
    destruct (digit_val c); [discriminate | reflexivity].
  - cbn [forallb] in Hds. apply andb_true_iff in Hds as [Hc Hds].
    change ((c :: ds) ++ rest) with (c :: (ds ++ rest)). cbn [read_digits].
    unfold is_digit in Hc. destruct (digit_val c) as [d|] eqn:E; [|discriminate].
    rewrite IH by assumption.
    unfold digits_value. cbn [fold_left length]. rewrite E. reflexivity.
Qed.

(** *** The digits of a natural number *)

Lemma digits_fuel_enough f : forall f' n,
  0 <= n < 2 ^ (Z.of_nat f + 1) -> n < 2 ^ (Z.of_nat f' + 1) ->
  digits_fuel (S f) n = digits_fuel (S f') n.
Proof.
  induction f as [|f IH]; intros f' n Hn Hn'.
  - simpl in Hn. change (2 ^ 1) with 2 in Hn.
    simpl. destruct (n <? 10) eqn:E; [reflexivity|]. apply Z.ltb_ge in E. lia.
  - cbn [digits_fuel]. destruct (n <? 10) eqn:E; [reflexivity|].
    apply Z.ltb_ge in E. f_equal.
    destruct f' as [|f'].
    { simpl in Hn'. change (2 ^ 1) with 2 in Hn'. lia. }
    apply IH.
    + split; [apply Z.div_pos; lia|].
      apply Z.div_lt_upper_bound; [lia|].
      rewrite Nat2Z.inj_succ in Hn.
      replace (Z.succ (Z.of_nat f) + 1) with (Z.succ (Z.of_nat f + 1)) in Hn by lia.
      rewrite Z.pow_succ_r in Hn by lia. lia.
    + apply Z.div_lt_upper_bound; [lia|].
      rewrite Nat2Z.inj_succ in Hn'.
      replace (Z.succ (Z.of_nat f') + 1) with (Z.succ (Z.of_nat f' + 1)) in Hn' by lia.
      rewrite Z.pow_succ_r in Hn' by lia. lia.
Qed.

Lemma log2_fuel n : 0 <= n -> n < 2 ^ (Z.of_nat (Z.to_nat (Z.log2 n)) + 1).
Proof.
  intros Hn. rewrite Z2Nat.id by apply Z.log2_nonneg.
  destruct (Z.eq_dec n 0) as [-> | Hne]; [reflexivity|].
  pose proof (Z.log2_spec n ltac:(lia)) as H. unfold Z.succ in H. lia.
Qed.

(** The recursion [digits] follows, free of fuel. *)
Lemma digits_eq n : 0 <= n ->
  digits n = if n <? 10 then [digit_char n]
             else digits (n / 10) ++ [digit_char (n mod 10)].
Proof.
  intros Hn. unfold digits at 1. cbn [digits_fuel].
  destruct (n <? 10) eqn:E; [reflexivity|]. apply Z.ltb_ge in E.
  f_equal. unfold digits.
  pose proof (log2_fuel n Hn) as Hf.
  destruct (Z.to_nat (Z.log2 n)) as [|f] eqn:Ef.
  { simpl in Hf. change (2 ^ 1) with 2 in Hf. lia. }
  assert (0 <= n / 10) as Hq by (apply Z.div_pos; lia).
  apply digits_fuel_enough.
  - split; [assumption|]. apply Z.div_lt_upper_bound; [lia|].
    rewrite Nat2Z.inj_succ in Hf.
    replace (Z.succ (Z.of_nat f) + 1) with (Z.succ (Z.of_nat f + 1)) in Hf by lia.
    rewrite Z.pow_succ_r in Hf by lia. lia.
  - apply log2_fuel. assumption.
Qed.

Lemma digits_small n : 0 <= n < 10 -> digits n = [digit_char n].
Proof.
  intros H. rewrite digits_eq by lia.
  destruct (n <? 10) eqn:E; [reflexivity|]. apply Z.ltb_ge in E. lia.
Qed.

Lemma digits_large n : 10 <= n ->
  digits n = digits (n / 10) ++ [digit_char (n mod 10)].
Proof.
  intros H. rewrite digits_eq by lia.
  destruct (n <? 10) eqn:E; [|reflexivity]. apply Z.ltb_lt in E. lia.
Qed.

(** The digits are digits, there is at least one, and they denote [n]. *)
Lemma digits_spec n : 0 <= n ->
  forallb is_digit (digits n) = true
  /\ (1 <= length (digits n))%nat
  /\ digits_value 0 (digits n) = n.
Proof.
  intros Hn. pattern n. apply Zlt_0_ind; [|assumption].
  clear n Hn. intros n IH Hn.
  destruct (Z_lt_le_dec n 10) as [Hlt | Hge].
  - rewrite digits_small by lia. cbn [forallb length].
    rewrite is_digit_char by lia. split; [reflexivity|]. split; [cbn; lia|].
    unfold digits_value. cbn [fold_left]. rewrite digit_val_char by lia.
    cbn [default from_option id]. lia.
  - rewrite digits_large by lia.
    assert (0 <= n / 10 < n) as Hq.
    { split; [apply Z.div_pos; lia | apply Z.div_lt; lia]. }
    destruct (IH _ Hq) as (Hd & Hl & Hv).
    pose proof (Z.mod_pos_bound n 10 ltac:(lia)) as Hr.
    rewrite forallb_app, length_app, digits_value_app, Hd, Hv.
    cbn [forallb length]. rewrite is_digit_char by lia.
    split; [reflexivity|]. split; [lia|].
    unfold digits_value. cbn [fold_left]. rewrite digit_val_char by lia.
    cbn [default from_option id]. pose proof (Z_div_mod_eq_full n 10). lia.
Qed.

Lemma digits_are_digits n : 0 <= n -> forallb is_digit (digits n) = true.
Proof. intros H. apply (digits_spec n H). Qed.

Lemma digits_value_digits n : 0 <= n -> digits_value 0 (digits n) = n.
Proof. intros H. apply (digits_spec n H). Qed.

Lemma digits_nonempty n : 0 <= n -> (1 <= length (digits n))%nat.
Proof. intros H. apply (digits_spec n H). Qed.

(** A number of [k] digits is below [10^k], and at least [10^(k-1)] unless
    it is zero. *)
Lemma digits_bounds n : 0 <= n ->
  n < 10 ^ Z.of_nat (length (digits n))
  /\ (0 < n -> 10 ^ (Z.of_nat (length (digits n)) - 1) <= n).
Proof.
  intros Hn. pattern n. apply Zlt_0_ind; [|assumption].
  clear n Hn. intros n IH Hn.
  destruct (Z_lt_le_dec n 10) as [Hlt | Hge].
  - rewrite digits_small by lia. cbn [length]. change (10 ^ Z.of_nat 1) with 10.
    change (10 ^ (Z.of_nat 1 - 1)) with 1. lia.
  - rewrite digits_large by lia.
    assert (0 <= n / 10 < n) as Hq.
    { split; [apply Z.div_pos; lia | apply Z.div_lt; lia]. }
    destruct (IH _ Hq) as (Hu & Hl).
    pose proof (digits_nonempty (n / 10) ltac:(lia)) as Hk.
    rewrite length_app. cbn [length].
    rewrite Nat2Z.inj_add. change (Z.of_nat 1) with 1.
    set (k := Z.of_nat (length (digits (n / 10)))) in *.
    pose proof (Z_div_mod_eq_full n 10) as Hdm.
    pose proof (Z.mod_pos_bound n 10 ltac:(lia)) as Hr.
    rewrite Z.pow_add_r by lia. change (10 ^ 1) with 10.
    split; [lia|]. intros _.
    replace (k + 1 - 1) with (Z.succ (k - 1)) by lia.
    rewrite Z.pow_succ_r by lia.
    assert (0 < n / 10) as Hpos by (apply Z.div_str_pos; lia).
    specialize (Hl Hpos). lia.
Qed.

(** Multiplying by a power of ten appends zeros. *)
Lemma digits_pow10 m j : 0 < m ->
  digits (m * 10 ^ Z.of_nat j) = digits m ++ zeros j.
Proof.
  intros Hm. induction j as [|j IH].
  - change (10 ^ Z.of_nat 0) with 1. rewrite Z.mul_1_r.
    cbn [zeros repeat]. now rewrite app_nil_r.
  - rewrite Nat2Z.inj_succ, Z.pow_succ_r by lia.
    assert (0 < 10 ^ Z.of_nat j) as Hp by (apply Z.pow_pos_nonneg; lia).
    replace (m * (10 * 10 ^ Z.of_nat j)) with (m * 10 ^ Z.of_nat j * 10) by ring.
    rewrite digits_large by nia.
    rewrite Z.div_mul, Z.mod_mul by lia. rewrite IH.
    unfold zeros. cbn [repeat]. rewrite repeat_cons, app_assoc. reflexivity.
Qed.

(** *** Canonical decimals *)

Lemma strip_zeros_pow fuel : forall j m e,
  m mod 10 <> 0 -> (j <= fuel)%nat ->
  strip_zeros fuel (m * 10 ^ Z.of_nat j) e = (m, e + Z.of_nat j).
Proof.
  induction fuel as [|fuel IH]; intros j m e Hm Hj.
  - assert (j = O) as -> by lia. cbn [strip_zeros].
    change (10 ^ Z.of_nat 0) with 1. f_equal; lia.
  - cbn [strip_zeros]. destruct j as [|j].
    + change (10 ^ Z.of_nat 0) with 1. rewrite Z.mul_1_r.
      destruct (m mod 10 =? 0) eqn:E; [apply Z.eqb_eq in E; contradiction|].
      f_equal; lia.
    + rewrite Nat2Z.inj_succ, Z.pow_succ_r by lia.
      replace (m * (10 * 10 ^ Z.of_nat j)) with (m * 10 ^ Z.of_nat j * 10) by ring.
      rewrite Z.mod_mul, Z.div_mul by lia. cbn [Z.eqb].
      rewrite IH by (assumption || lia). f_equal; lia.
Qed.

Lemma decimal_pow m j e : m mod 10 <> 0 ->
  decimal (m * 10 ^ Z.of_nat j) e = Finite m (e + Z.of_nat j).
Proof.
  intros Hm. unfold decimal.
  assert (m <> 0) as Hm0 by (intros ->; apply Hm; reflexivity).
  assert (0 < 10 ^ Z.of_nat j) as Hp by (apply Z.pow_pos_nonneg; lia).
  destruct (m * 10 ^ Z.of_nat j =? 0) eqn:E; [apply Z.eqb_eq in E; nia|].
  rewrite strip_zeros_pow; [reflexivity | assumption |].
  apply Nat2Z.inj_le. rewrite Z2Nat.id by apply Z.log2_nonneg.
  rewrite <- (Z.log2_pow2 (Z.of_nat j)) at 1 by lia.
  apply Z.log2_le_mono.
  assert (2 ^ Z.of_nat j <= 10 ^ Z.of_nat j) by (apply Z.pow_le_mono_l; lia).
  rewrite Z.abs_mul. rewrite (Z.abs_eq (10 ^ _)) by lia. nia.
Qed.

Lemma decimal_canonical m e : canonical (Finite m e) -> decimal m e = Finite m e.
Proof.
  intros [H0 Hn]. destruct (Z.eq_dec m 0) as [-> | Hm].
  - rewrite (H0 eq_refl). reflexivity.
  - pose proof (decimal_pow m 0 e (Hn Hm)) as H.
    change (10 ^ Z.of_nat 0) with 1 in H.
    rewrite Z.mul_1_r, Z.add_0_r in H. exact H.
Qed.

(** Every non-zero integer is a multiple of a power of ten by an integer
    that does not end in 0. *)
Lemma pow10_decomposition m : m <> 0 ->
  exists m' j, m = m' * 10 ^ Z.of_nat j /\ m' mod 10 <> 0.
Proof.
  intros Hm. remember (Z.abs m) as n eqn:Hn.
  assert (0 <= n) as Hn0 by lia.
  revert m Hm Hn. pattern n. apply Zlt_0_ind; [|assumption].
  clear n Hn0. intros n IH _ m Hm Hn.
  destruct (Z.eq_dec (m mod 10) 0) as [Hz | Hnz].
  - assert (m = m / 10 * 10) as Hdiv
      by (pose proof (Z_div_mod_eq_full m 10); lia).
    assert (m / 10 <> 0) as Hq by lia.
    destruct (IH (Z.abs (m / 10)) ltac:(lia) (m / 10) Hq eq_refl)
      as (m' & j & Hm' & Hr).
    exists m', (S j). split; [|assumption].
    rewrite Nat2Z.inj_succ, Z.pow_succ_r by lia.
    rewrite Hdiv at 1. rewrite Hm' at 1. ring.
  - exists m, O. split; [|assumption]. change (10 ^ Z.of_nat 0) with 1. lia.
Qed.

Lemma canonical_decimal m e : canonical (decimal m e).
Proof.
  destruct (Z.eq_dec m 0) as [-> | Hm].
  - cbn. split; [reflexivity | intros H; contradiction].
  - destruct (pow10_decomposition m Hm) as (m' & j & -> & Hr).
    rewrite decimal_pow by assumption. cbn [canonical]. split.
    + intros ->. exfalso. apply Hr. reflexivity.
    + intros _. assumption.
Qed.

Lemma canonicalb_spec x : canonicalb x = true <-> canonical x.
Proof.
  destruct x as [| |m e]; cbn [canonicalb canonical]; try tauto.
  destruct (m =? 0) eqn:E.
  - apply Z.eqb_eq in E. subst m. rewrite Z.eqb_eq. split.
    + intros ->. split; [reflexivity | intros H; contradiction].
    + intros [H _]. apply H. reflexivity.
  - apply Z.eqb_neq in E. rewrite negb_true_iff, Z.eqb_neq. split.
    + intros H. split; [intros; contradiction | intros _; assumption].
    + intros [_ H]. apply H. assumption.
Qed.

Lemma mod10_opp m : m mod 10 <> 0 -> (- m) mod 10 <> 0.
Proof. intros H. Z.div_mod_to_equations. lia. Qed.

(** *** Parsing what was printed *)

(** A digit is no white space, sign, dot, exponent mark or letter. *)
Lemma digit_char_class c : is_digit c = true ->
  is_ws c = false /\ Ascii.eqb c "-" = false /\ Ascii.eqb c "+" = false
  /\ Ascii.eqb c "." = false /\ Ascii.eqb "I" c = false
  /\ Ascii.eqb "x" c = false /\ Ascii.eqb "X" c = false
  /\ Ascii.eqb c "e" = false /\ Ascii.eqb c "E" = false.
Proof.
  destruct c as [[] [] [] [] [] [] [] []]; vm_compute; intros H;
    try discriminate H; repeat split; reflexivity.
Qed.

Lemma parse_float_digit c s : is_digit c = true ->
  parse_float (c :: s) = parse_decimal false (c :: s).
Proof.
  intros Hc. destruct (digit_char_class c Hc) as (Hws & Hm & Hp & _ & HI & _).
  unfold parse_float. cbn [trim_start]. rewrite Hws.
  cbn [read_sign]. rewrite Hm, Hp.
  cbn [list_ascii_of_string starts_with]. rewrite HI. reflexivity.
Qed.

Lemma parse_float_minus_digit c s : is_digit c = true ->
  parse_float ("-"%char :: c :: s) = parse_decimal true (c :: s).
Proof.
  intros Hc. destruct (digit_char_class c Hc) as (_ & _ & _ & _ & HI & _).
  unfold parse_float. cbn [trim_start]. change (is_ws "-") with false.
  cbn [read_sign]. change (Ascii.eqb "-" "-") with true.
  cbn [list_ascii_of_string starts_with]. rewrite HI. reflexivity.
Qed.

(** Digits, a dot, digits and what follows the literal. *)
Lemma parse_decimal_dot neg I F X :
  forallb is_digit I = true -> forallb is_digit F = true ->
  (1 <= length I + length F)%nat -> stops is_digit X = true ->
  parse_decimal neg (I ++ "."%char :: F ++ X)
  = decimal (signed neg (digits_value 0 (I ++ F)))
            (read_exponent X - Z.of_nat (length F)).
Proof.
  intros HI HF Hlen HX. unfold parse_decimal.
  rewrite read_digits_app by (assumption || reflexivity).
  change (Ascii.eqb "." ".") with true. cbv iota.
  rewrite read_digits_app by assumption.
  destruct (length I + length F)%nat eqn:E; [lia|].
  rewrite digits_value_app. reflexivity.
Qed.

(** Digits with no dot after them. *)
Lemma parse_decimal_nodot neg I X :
  forallb is_digit I = true -> (1 <= length I)%nat ->
  stops is_digit X = true -> stops (Ascii.eqb ".") X = true ->
  parse_decimal neg (I ++ X)
  = decimal (signed neg (digits_value 0 I)) (read_exponent X).
Proof.
  intros HI Hlen HX Hdot. unfold parse_decimal.
  rewrite read_digits_app by assumption.
  assert ((let '(m2, k2, s3) :=
             match X with
             | c :: r => if Ascii.eqb c "." then read_digits (digits_value 0 I) r
                         else (digits_value 0 I, O, X)
             | [] => (digits_value 0 I, O, X)
             end in
           match (length I + k2)%nat with
           | O => NaN
           | S _ => decimal (signed neg m2) (read_exponent s3 - Z.of_nat k2)
           end)
          = decimal (signed neg (digits_value 0 I)) (read_exponent X)) as ->;
    [|reflexivity].
  destruct X as [|c r].
  - cbv zeta. destruct (length I + 0)%nat eqn:E; [lia|].
    cbn [read_exponent Z.of_nat]. rewrite Z.sub_0_r. reflexivity.
  - cbn [stops] in Hdot. rewrite Ascii.eqb_sym in Hdot.
    apply negb_true_iff in Hdot. rewrite Hdot.
    destruct (length I + 0)%nat eqn:E; [lia|].
    cbn [Z.of_nat]. rewrite Z.sub_0_r. reflexivity.
Qed.

Lemma read_exponent_render x :
  read_exponent ("e"%char :: (if x <? 0 then "-"%char else "+"%char) :: digits (Z.abs x))
  = x.
Proof.
  pose proof (digits_spec (Z.abs x) ltac:(lia)) as (Hd & Hl & Hv).
  pose proof (read_digits_app (digits (Z.abs x)) 0 [] Hd eq_refl) as Hr.
  rewrite app_nil_r in Hr.
  unfold read_exponent. change (Ascii.eqb "e" "e" || Ascii.eqb "e" "E") with true.
  cbv iota.
  destruct (x <? 0) eqn:E.
  - apply Z.ltb_lt in E. cbn [read_sign]. change (Ascii.eqb "-" "-") with true.
    cbv iota. rewrite Hr, Hv.
    destruct (length (digits (Z.abs x))); [lia|]. lia.
  - apply Z.ltb_ge in E. cbn [read_sign]. change (Ascii.eqb "+" "-") with false.
    change (Ascii.eqb "+" "+") with true. cbv iota. rewrite Hr, Hv.
    destruct (length (digits (Z.abs x))); [lia|]. lia.
Qed.

Lemma signed_mod10 neg m : m mod 10 <> 0 -> signed neg m mod 10 <> 0.
Proof. destruct neg; cbn [signed]; [apply mod10_opp | trivial]. Qed.

Lemma decimal_signed neg m e : m mod 10 <> 0 ->
  decimal (signed neg m) e = Finite (signed neg m) e.
Proof.
  intros Hm. apply decimal_canonical. cbn [canonical].
  pose proof (signed_mod10 neg m Hm) as Hs. split.
  - intros H0. rewrite H0 in Hs. exfalso. apply Hs. reflexivity.
  - intros _. assumption.
Qed.

Lemma signed_mul neg a b : signed neg (a * b) = signed neg a * b.
Proof. destruct neg; cbn [signed]; ring. Qed.

(** What [render_pos] prints is read back as the number printed. *)
Lemma parse_render_pos neg m e : 0 < m -> m mod 10 <> 0 ->
  parse_decimal neg (render_pos m e) = Finite (signed neg m) e.
Proof.
  intros Hm Hr. unfold render_pos.
  pose proof (digits_spec m ltac:(lia)) as (Hd & Hl & Hv).
  set (ds := digits m) in *. set (k := Z.of_nat (length ds)).
  assert (1 <= k) as Hk by (subst k; lia).
  destruct ((k <=? k + e) && (k + e <=? 21)) eqn:C1.
  { (* an integer: the digits and [e] zeros *)
    apply andb_true_iff in C1 as [C1 _]. apply Z.leb_le in C1.
    rewrite <- (app_nil_r (ds ++ zeros _)).
    rewrite parse_decimal_nodot; try reflexivity.
    - rewrite digits_value_app, Hv, digits_value_zeros, signed_mul.
      rewrite decimal_pow by (apply signed_mod10; assumption).
      f_equal. cbn [read_exponent]. lia.
    - rewrite forallb_app, Hd. apply forallb_zeros.
    - rewrite length_app. lia. }
  destruct ((0 <? k + e) && (k + e <=? 21)) eqn:C2.
  { (* the dot inside the digits *)
    apply andb_true_iff in C2 as [C2 C2']. apply Z.ltb_lt in C2.
    apply Z.leb_le in C2'.
    assert (k + e < k) as Hlt.
    { apply andb_false_iff in C1 as [C1 | C1];
        [apply Z.leb_gt in C1; lia | apply Z.leb_gt in C1; lia]. }
    rewrite <- (app_nil_r (drop _ ds)).
    pose proof (firstn_skipn (Z.to_nat (k + e)) ds) as Hsplit.
    assert (forallb is_digit (take (Z.to_nat (k + e)) ds) = true
            /\ forallb is_digit (drop (Z.to_nat (k + e)) ds) = true) as [H1 H2].
    { rewrite <- Hsplit in Hd. rewrite forallb_app in Hd.
      apply andb_true_iff in Hd. exact Hd. }
    rewrite parse_decimal_dot; try assumption; try reflexivity.
    - rewrite Hsplit, Hv. rewrite length_drop.
      cbn [read_exponent]. rewrite <- (decimal_signed neg m e Hr).
      f_equal. subst k. lia.
    - rewrite length_take, length_drop. lia. }
  destruct ((-6 <? k + e) && (k + e <=? 0)) eqn:C3.
  { (* zero, the dot, zeros and the digits *)
    apply andb_true_iff in C3 as [_ C3]. apply Z.leb_le in C3.
    rewrite <- (app_nil_r ds) at 1. rewrite app_assoc.
    change ("0"%char :: "."%char :: (zeros (Z.to_nat (- (k + e))) ++ ds) ++ [])
      with (["0"%char] ++ "."%char :: (zeros (Z.to_nat (- (k + e))) ++ ds) ++ []).
    rewrite parse_decimal_dot; try reflexivity.
    - rewrite !digits_value_app, digits_value_zeros.
      change (digits_value 0 ["0"%char]) with 0. rewrite Z.mul_0_l, Hv.
      rewrite length_app, length_zeros. cbn [read_exponent].
      rewrite <- (decimal_signed neg m e Hr). f_equal. subst k. lia.
    - rewrite forallb_app, forallb_zeros. assumption.
    - cbn [length]. lia. }
  (* exponent notation *)
  destruct ds as [|d rest] eqn:Eds; [cbn in Hl; lia|].
  cbn [forallb] in Hd. apply andb_true_iff in Hd as [Hd0 Hd].
  destruct rest as [|d' rest'].
  - change (d :: "e"%char :: ?x) with ([d] ++ "e"%char :: x).
    rewrite parse_decimal_nodot; try reflexivity.
    + rewrite Hv, read_exponent_render.
      rewrite <- (decimal_signed neg m e Hr). f_equal. subst k. cbn [length]. lia.
    + cbn [forallb]. rewrite Hd0. reflexivity.
  - set (rest := d' :: rest') in *.
    change (d :: "."%char :: rest ++ ?x) with ([d] ++ "."%char :: rest ++ x).
    rewrite parse_decimal_dot; try assumption; try reflexivity.
    + change ([d] ++ rest) with (d :: rest). rewrite Hv, read_exponent_render.
      rewrite <- (decimal_signed neg m e Hr). f_equal. subst k. cbn [length]. lia.
    + cbn [forallb]. rewrite Hd0. reflexivity.
Qed.

(** What [render_pos] prints starts with a digit. *)
Lemma render_pos_head m e : 0 < m ->
  exists c s, render_pos m e = c :: s /\ is_digit c = true.
Proof.
  intros Hm. unfold render_pos.
  pose proof (digits_spec m ltac:(lia)) as (Hd & Hl & _).
  destruct (digits m) as [|d rest] eqn:Eds; [cbn in Hl; lia|].
  cbn [forallb] in Hd. apply andb_true_iff in Hd as [Hd0 Hd].
  set (k := Z.of_nat (length (d :: rest))).
  destruct ((k <=? k + e) && (k + e <=? 21)) eqn:C1.
  { exists d. eexists. split; [reflexivity | assumption]. }
  destruct ((0 <? k + e) && (k + e <=? 21)) eqn:C2.
  { apply andb_true_iff in C2 as [C2 _]. apply Z.ltb_lt in C2.
    destruct (Z.to_nat (k + e)) as [|n'] eqn:En; [lia|].
    exists d. eexists. split; [reflexivity | assumption]. }
  destruct ((-6 <? k + e) && (k + e <=? 0)) eqn:C3.
  { exists "0"%char. eexists. split; reflexivity. }
  destruct rest as [|d' rest']; exists d; eexists; (split; [reflexivity | assumption]).
Qed.

(** [Number.parseFloat] reads back every number [toString] prints. *)
Lemma parse_float_render x : canonical x -> parse_float (render x) = x.
Proof.
  destruct x as [| [|] |m e]; try reflexivity.
  intros Hc. cbn [render]. rewrite (decimal_canonical m e Hc).
  destruct Hc as [H0 Hn].
  destruct (m =? 0) eqn:Em.
  - apply Z.eqb_eq in Em. subst m. rewrite (H0 eq_refl). reflexivity.
  - apply Z.eqb_neq in Em. specialize (Hn Em).
    destruct (m <? 0) eqn:Eneg.
    + apply Z.ltb_lt in Eneg.
      destruct (render_pos_head (- m) e ltac:(lia)) as (c & s & Hs & Hc).
      pose proof (parse_render_pos true (- m) e ltac:(lia) (mod10_opp m Hn)) as H.
      rewrite Hs in *. rewrite parse_float_minus_digit by assumption.
      rewrite H. cbn [signed]. f_equal. lia.
    + apply Z.ltb_ge in Eneg.
      destruct (render_pos_head m e ltac:(lia)) as (c & s & Hs & Hc).
      pose proof (parse_render_pos false m e ltac:(lia) Hn) as H.
      rewrite Hs in *. rewrite parse_float_digit by assumption. exact H.
Qed.

Lemma parseFloat_toString x : canonical x -> parseFloat (toString x) = x.
Proof.
  intros H. unfold parseFloat, toString.
  rewrite list_ascii_of_string_of_list_ascii. apply parse_float_render, H.
Qed.

(** *** Integers *)

Lemma decimal_finite m e : exists m' e', decimal m e = Finite m' e'.
Proof.
  unfold decimal. destruct (m =? 0); [eauto|].
  destruct (strip_zeros _ m e). eauto.
Qed.

Lemma isNaN_of_Z t : isNaN (of_Z t) = false.
Proof.
  unfold of_Z. destruct (decimal_finite t 0) as (m & e & ->). reflexivity.
Qed.

Lemma render_pos_integer m j :
  0 < m -> m mod 10 <> 0 -> m * 10 ^ Z.of_nat j < 10 ^ 21 ->
  render_pos m (Z.of_nat j) = digits (m * 10 ^ Z.of_nat j).
Proof.
  intros Hm Hr Hlt. rewrite digits_pow10 by assumption.
  assert (0 < 10 ^ Z.of_nat j) as Hp by (apply Z.pow_pos_nonneg; lia).
  pose proof (digits_bounds (m * 10 ^ Z.of_nat j) ltac:(nia)) as [_ Hlow].
  specialize (Hlow ltac:(nia)).
  rewrite digits_pow10, length_app, length_zeros in Hlow by assumption.
  unfold render_pos. set (k := Z.of_nat (length (digits m))).
  assert (Z.of_nat (length (digits m) + j) - 1 < 21) as Hlen.
  { apply (Z.pow_lt_mono_r_iff 10); lia. }
  destruct ((k <=? k + Z.of_nat j) && (k + Z.of_nat j <=? 21)) eqn:C1.
  - do 2 f_equal. lia.
  - apply andb_false_iff in C1 as [C1 | C1]; apply Z.leb_gt in C1; subst k; lia.
Qed.

(** An integer below [10^21] in magnitude prints as its digits. *)
Lemma render_of_Z t : Z.abs t < 10 ^ 21 ->
  render (of_Z t) = if t <? 0 then "-"%char :: digits (- t) else digits t.
Proof.
  intros Ht. destruct (Z.eq_dec t 0) as [-> | Hne]; [reflexivity|].
  destruct (pow10_decomposition t Hne) as (m & j & -> & Hr).
  assert (0 < 10 ^ Z.of_nat j) as Hp by (apply Z.pow_pos_nonneg; lia).
  unfold of_Z. rewrite decimal_pow by assumption. cbn [render].
  rewrite Z.add_0_l.
  assert (m <> 0) as Hm0 by (intros ->; apply Hr; reflexivity).
  rewrite decimal_canonical by (cbn; split; [intros; contradiction | auto]).
  destruct (m =? 0) eqn:E0; [apply Z.eqb_eq in E0; contradiction|].
  destruct (m <? 0) eqn:Em.
  - apply Z.ltb_lt in Em.
    destruct (m * 10 ^ Z.of_nat j <? 0) eqn:Et; [|apply Z.ltb_ge in Et; nia].
    f_equal. rewrite render_pos_integer.
    + f_equal. ring.
    + lia.
    + apply mod10_opp, Hr.
    + rewrite Z.abs_neq in Ht by nia. lia.
  - apply Z.ltb_ge in Em.
    destruct (m * 10 ^ Z.of_nat j <? 0) eqn:Et; [apply Z.ltb_lt in Et; nia|].
    apply render_pos_integer; [lia | assumption |].
    rewrite Z.abs_eq in Ht by nia. lia.
Qed.

Lemma hex_prefix_digits ds rest :
  forallb is_digit ds = true -> (2 <= length ds)%nat \/ rest = [] ->
  hex_prefix (ds ++ rest) = false.
Proof.
  intros Hd Hlen. unfold hex_prefix.
  destruct ds as [|a [|b ds]].
  - destruct Hlen as [Hlen | ->]; [cbn in Hlen; lia | reflexivity].
  - destruct Hlen as [Hlen | ->]; [cbn in Hlen; lia|].
    cbn -[Ascii.eqb]. now rewrite !andb_false_r.
  - cbn [forallb] in Hd. apply andb_true_iff in Hd as [_ Hd].
    apply andb_true_iff in Hd as [Hb _].
    destruct (digit_char_class b Hb) as (_ & _ & _ & _ & _ & Hx & HX & _).
    cbn -[Ascii.eqb]. rewrite Hx, HX. now rewrite !andb_false_r.
Qed.

(** A run of decimal digits that no [x] follows reads as the integer it
    denotes. *)
Lemma parse_integer_digits neg ds rest :
  forallb is_digit ds = true -> (1 <= length ds)%nat ->
  stops is_digit rest = true -> hex_prefix (ds ++ rest) = false ->
  parse_integer neg (ds ++ rest) = of_Z (signed neg (digits_value 0 ds)).
Proof.
  intros Hd Hlen Hrest Hhex. unfold parse_integer. rewrite Hhex.
  rewrite read_digits_app by assumption.
  destruct (length ds); [lia | reflexivity].
Qed.

Lemma parse_int_digit c s : is_digit c = true ->
  parse_int (c :: s) = parse_integer false (c :: s).
Proof.
  intros Hc. destruct (digit_char_class c Hc) as (Hws & Hm & Hp & _).
  unfold parse_int. cbn [trim_start]. rewrite Hws.
  cbn [read_sign]. now rewrite Hm, Hp.
Qed.

Lemma parse_int_minus s : parse_int ("-"%char :: s) = parse_integer true s.
Proof. reflexivity. Qed.

Lemma parse_int_render_of_Z t : Z.abs t < 10 ^ 21 ->
  parse_int (render (of_Z t)) = of_Z t.
Proof.
  intros Ht. rewrite render_of_Z by assumption.
  destruct (t <? 0) eqn:E.
  - apply Z.ltb_lt in E. rewrite parse_int_minus.
    pose proof (digits_spec (- t) ltac:(lia)) as (Hd & Hl & Hv).
    rewrite <- (app_nil_r (digits (- t))).
    rewrite parse_integer_digits; try assumption; try reflexivity.
    + rewrite Hv. cbn [signed]. f_equal. lia.
    + apply hex_prefix_digits; auto.
  - apply Z.ltb_ge in E.
    pose proof (digits_spec t ltac:(lia)) as (Hd & Hl & Hv).
    destruct (digits t) as [|c s] eqn:Eds; [cbn in Hl; lia|].
    assert (is_digit c = true) as Hc.
    { cbn [forallb] in Hd. now apply andb_true_iff in Hd as [Hc _]. }
    rewrite parse_int_digit by assumption.
    rewrite <- (app_nil_r (c :: s)).
    rewrite parse_integer_digits; try assumption; try reflexivity.
    + now rewrite Hv.
    + apply hex_prefix_digits; auto.
Qed.

Lemma parseInt_toString_of_Z t : Z.abs t < 10 ^ 21 ->
  parseInt (toString (of_Z t)) = of_Z t.
Proof.
  intros H. unfold parseInt, toString.
  rewrite list_ascii_of_string_of_list_ascii. now apply parse_int_render_of_Z.
Qed.

(** *** Strings with and without a numeric prefix *)

Lemma read_digits_stops acc s :
  stops is_digit s = true -> read_digits acc s = (acc, O, s).
Proof.
  destruct s as [|c s]; [reflexivity|]. cbn [stops read_digits]. unfold is_digit.
  destruct (digit_val c); [discriminate | reflexivity].
Qed.

Lemma read_digits_starts acc s :
  stops is_digit s = false -> exists v k r, read_digits acc s = (v, S k, r).
Proof.
  destruct s as [|c s]; [discriminate|]. cbn [stops read_digits]. unfold is_digit.
  destruct (digit_val c) as [d|]; [|discriminate]. intros _.
  destruct (read_digits (10 * acc + d) s) as [[v k] r]. eauto.
Qed.

Lemma read_hex_stops acc s :
  stops is_hex s = true -> read_hex acc s = (acc, O, s).
Proof.
  destruct s as [|c s]; [reflexivity|]. cbn [stops read_hex]. unfold is_hex.
  destruct (hex_val c); [discriminate | reflexivity].
Qed.

Lemma read_hex_starts acc s :
  stops is_hex s = false -> exists v k r, read_hex acc s = (v, S k, r).
Proof.
  destruct s as [|c s]; [discriminate|]. cbn [stops read_hex]. unfold is_hex.
  destruct (hex_val c) as [d|]; [|discriminate]. intros _.
  destruct (read_hex (16 * acc + d) s) as [[v k] r]. eauto.
Qed.

Lemma isNaN_decimal m e : isNaN (decimal m e) = false.
Proof. destruct (decimal_finite m e) as (m' & e' & ->). reflexivity. Qed.

(** [parse_decimal] fails exactly on an input that starts with no decimal
    literal. *)
Lemma isNaN_parse_decimal neg s1 :
  isNaN (parse_decimal neg s1) = negb (decimal_start s1).
Proof.
  unfold parse_decimal, decimal_start.
  destruct s1 as [|c r]; [reflexivity|].
  destruct (is_digit c) eqn:Ec.
  - destruct (read_digits_starts 0 (c :: r)) as (v & k & r' & ->).
    { cbn [stops]. now rewrite Ec. }
    destruct (match r' with
              | [] => (v, O, r')
              | c0 :: r0 => if Ascii.eqb c0 "." then read_digits v r0 else (v, O, r')
              end) as [[m2 k2] s3].
    cbn [Nat.add orb negb]. apply isNaN_decimal.
  - rewrite read_digits_stops by (cbn [stops]; now rewrite Ec).
    cbn [orb]. destruct (Ascii.eqb c ".") eqn:Edot; [|reflexivity].
    cbn [andb]. destruct (stops is_digit r) eqn:Er.
    + now rewrite read_digits_stops.
    + destruct (read_digits_starts 0 r Er) as (v & k & r' & ->).
      cbn [Nat.add negb]. apply isNaN_decimal.
Qed.

Lemma isNaN_parseFloat s : isNaN (parseFloat s) = negb (has_numeric_prefix s).
Proof.
  unfold parseFloat, parse_float, has_numeric_prefix.
  destruct (read_sign (trim_start (list_ascii_of_string s))) as [neg s1].
  cbn [snd]. destruct (starts_with _ s1); [reflexivity|].
  cbn [orb]. apply isNaN_parse_decimal.
Qed.

Lemma isNaN_parse_integer neg s1 :
  isNaN (parse_integer neg s1) = negb (integer_start s1).
Proof.
  unfold parse_integer, integer_start. destruct (hex_prefix s1).
  - destruct (stops is_hex (drop 2 s1)) eqn:E.
    + now rewrite read_hex_stops.
    + destruct (read_hex_starts 0 _ E) as (v & k & r & ->). apply isNaN_of_Z.
  - destruct (stops is_digit s1) eqn:E.
    + now rewrite read_digits_stops.
    + destruct (read_digits_starts 0 _ E) as (v & k & r & ->). apply isNaN_of_Z.
Qed.

Lemma isNaN_parseInt s : isNaN (parseInt s) = negb (has_integer_prefix s).
Proof.
  unfold parseInt, parse_int, has_integer_prefix.
  destruct (read_sign (trim_start (list_ascii_of_string s))) as [neg s1].
  cbn [snd]. apply isNaN_parse_integer.
Qed.

(** Decimal digits followed by a character that does not continue the
    literal read as the integer they denote. *)
Lemma parse_float_digits ds rest :
  forallb is_digit ds = true -> (1 <= length ds)%nat ->
  stops continues_decimal rest = true ->
  parse_float (ds ++ rest) = of_Z (digits_value 0 ds).
Proof.
  intros Hd Hl Hrest.
  assert (stops is_digit rest = true /\ stops (Ascii.eqb ".") rest = true
          /\ read_exponent rest = 0) as (H1 & H2 & H3).
  { destruct rest as [|c r]; [repeat split|]. cbn [stops] in *.
    unfold continues_decimal in Hrest. apply negb_true_iff in Hrest.
    apply orb_false_iff in Hrest as [Hrest HE].
    apply orb_false_iff in Hrest as [Hrest He].
    apply orb_false_iff in Hrest as [Hdig Hdot].
    rewrite Hdig, (Ascii.eqb_sym "." c), Hdot. repeat split.
    unfold read_exponent. now rewrite He, HE. }
  destruct ds as [|c ds]; [cbn in Hl; lia|].
  assert (is_digit c = true) as Hc.
  { cbn [forallb] in Hd. now apply andb_true_iff in Hd as [Hc _]. }
  change ((c :: ds) ++ rest) with (c :: (ds ++ rest)).
  rewrite parse_float_digit by assumption.
  change (c :: (ds ++ rest)) with ((c :: ds) ++ rest).
  rewrite parse_decimal_nodot by assumption. now rewrite H3.
Qed.

Lemma parse_int_digits ds rest :
  forallb is_digit ds = true -> (1 <= length ds)%nat ->
  stops is_digit rest = true -> hex_prefix (ds ++ rest) = false ->
  parse_int (ds ++ rest) = of_Z (digits_value 0 ds).
Proof.
  intros Hd Hl Hrest Hhex.
  destruct ds as [|c ds]; [cbn in Hl; lia|].
  assert (is_digit c = true) as Hc.
  { cbn [forallb] in Hd. now apply andb_true_iff in Hd as [Hc _]. }
  change ((c :: ds) ++ rest) with (c :: (ds ++ rest)) in *.
  rewrite parse_int_digit by assumption.
  change (c :: (ds ++ rest)) with ((c :: ds) ++ rest) in *.
  now rewrite parse_integer_digits.
Qed.

(** *** The characters of a printed number *)

Lemma digits_not_comma ds :
  forallb is_digit ds = true -> forallb not_comma ds = true.
Proof.
  induction ds as [|c ds IH]; [reflexivity|]. cbn [forallb].
  intros H. apply andb_true_iff in H as [Hc Hds]. rewrite (IH Hds), andb_true_r.
  revert Hc. destruct c as [[] [] [] [] [] [] [] []]; vm_compute; congruence.
Qed.

Lemma forallb_take_drop (P : ascii -> bool) n l :
  forallb P l = true -> forallb P (take n l) = true /\ forallb P (drop n l) = true.
Proof.
  intros H. rewrite <- (firstn_skipn n l), forallb_app in H.
  now apply andb_true_iff in H.
Qed.

Lemma render_pos_not_comma m e : 0 < m -> forallb not_comma (render_pos m e) = true.
Proof.
  intros Hm. unfold render_pos.
  pose proof (digits_not_comma _ (digits_are_digits m ltac:(lia))) as Hd.
  pose proof (digits_not_comma _ (forallb_zeros (Z.to_nat (Z.of_nat (length (digits m)) + e - Z.of_nat (length (digits m)))))) as Hz1.
  pose proof (digits_not_comma _ (forallb_zeros (Z.to_nat (- (Z.of_nat (length (digits m)) + e))))) as Hz2.
  pose proof (digits_not_comma _ (digits_are_digits (Z.abs (Z.of_nat (length (digits m)) + e - 1)) ltac:(lia))) as Hx.
  destruct (forallb_take_drop not_comma (Z.to_nat (Z.of_nat (length (digits m)) + e)) _ Hd) as [Ht Hdr].
  repeat match goal with
  | |- context [if ?b then _ else _] => destruct b
  end;
  repeat match goal with
  | |- context [match ?l with [] => _ | _ :: _ => _ end] =>
      destruct l; cbn [forallb] in *
  end;
  repeat (rewrite ?forallb_app; cbn [forallb]);
  repeat match goal with
  | H : _ && _ = true |- _ => apply andb_true_iff in H as [? ?]
  end;
  repeat (apply andb_true_iff; split); try assumption; reflexivity.
Qed.

Lemma render_not_comma x : forallb not_comma (render x) = true.
Proof.
  destruct x as [| [|] |m e]; try reflexivity. cbn [render].
  pose proof (canonical_decimal m e) as Hc.
  destruct (decimal m e) as [| |m' e']; try reflexivity.
  destruct (m' =? 0) eqn:E0; [reflexivity|]. apply Z.eqb_neq in E0.
  destruct (m' <? 0) eqn:En.
  - apply Z.ltb_lt in En. cbn [forallb].
    now rewrite render_pos_not_comma by lia.
  - apply Z.ltb_ge in En. apply render_pos_not_comma. lia.
Qed.

End JsNumberFacts.

(** ** Strings: [split] undoes [join] *)

Module JsStringFacts.
Import JsString.

Lemma list_ascii_of_string_app s1 s2 :
  list_ascii_of_string (s1 +:+ s2)
  = list_ascii_of_string s1 ++ list_ascii_of_string s2.
Proof. induction s1 as [|c s1 IH]; simpl; [reflexivity | f_equal; exact IH]. Qed.

Lemma map_string_of_list_ascii l :
  map string_of_list_ascii (map list_ascii_of_string l) = l.
Proof.
  induction l as [|x l IH]; cbn; [reflexivity|].
  now rewrite string_of_list_ascii_of_string, IH.
Qed.

Lemma starts_with_app p rest : starts_with p (p ++ rest) = true.
Proof.
  induction p as [|a p IH]; cbn; [reflexivity|].
  now rewrite Ascii.eqb_refl, IH.
Qed.

Lemma starts_with_extend p s t :
  starts_with p s = true -> starts_with p (s ++ t) = true.
Proof.
  revert s. induction p as [|a p IH]; intros s H; [reflexivity|].
  destruct s as [|b s]; [discriminate|]. cbn in *.
  apply andb_true_iff in H as [H1 H2]. now rewrite H1, IH.
Qed.

Lemma starts_with_firstn p t :
  starts_with p t = starts_with p (take (length p) t).
Proof.
  revert t. induction p as [|a p IH]; intros t; [reflexivity|].
  destruct t as [|b t]; [reflexivity|]. cbn. now rewrite <- IH.
Qed.

(** Whether [p] starts [y ++ t] depends on [t] only through the characters
    of [p] that [y] leaves over. *)
Lemma starts_with_tail y : forall p t t',
  take (length p - length y) t = take (length p - length y) t' ->
  starts_with p (y ++ t) = starts_with p (y ++ t').
Proof.
  induction y as [|b y IH]; intros p t t' H.
  - cbn [app]. rewrite (starts_with_firstn p t), (starts_with_firstn p t').
    rewrite Nat.sub_0_r in H. now rewrite H.
  - destruct p as [|a p]; [reflexivity|]. cbn. f_equal. apply IH. exact H.
Qed.

Lemma split_go_skip sep p : forall rest,
  split_go sep (length p) (p ++ rest) = split_go sep 0 rest.
Proof.
  induction p as [|c p IH]; intros rest.
  - cbn [length app]. destruct rest; reflexivity.
  - cbn [length app split_go]. apply IH.
Qed.

Lemma split_go_separator c sep rest :
  split_go (c :: sep) 0 ((c :: sep) ++ rest)
  = [] :: split_go (c :: sep) 0 rest.
Proof.
  change ((c :: sep) ++ rest) with (c :: (sep ++ rest)).
  cbn [split_go]. 
  change (c :: (sep ++ rest)) with ((c :: sep) ++ rest).
  rewrite starts_with_app. f_equal.
  replace (length (c :: sep) - 1) with (length sep) by (cbn [length]; lia).
  apply split_go_skip.
Qed.

Lemma split_go_nonempty sep s : forall k, split_go sep k s <> [].
Proof.
  induction s as [|c s IH]; intros k; [discriminate|].
  cbn [split_go]. destruct k as [|k]; [|apply IH].
  destruct (starts_with sep (c :: s)); [discriminate|].
  destruct (split_go sep 0 s); discriminate.
Qed.

Lemma split_go_piece sep x : forall tail,
  no_start sep x tail = true ->
  split_go sep 0 (x ++ tail)
  = match split_go sep 0 tail with
    | piece :: pieces => (x ++ piece) :: pieces
    | [] => [x]
    end.
Proof.
  induction x as [|c x IH]; intros tail H.
  - cbn [app]. pose proof (split_go_nonempty sep tail 0) as Hne.
    destruct (split_go sep 0 tail); [contradiction | reflexivity].
  - cbn [no_start] in H. apply andb_true_iff in H as [H1 H2].
    apply negb_true_iff in H1.
    change ((c :: x) ++ tail) with (c :: (x ++ tail)) in *.
    cbn [split_go]. rewrite H1, (IH tail H2).
    destruct (split_go sep 0 tail); reflexivity.
Qed.

Lemma occurs_cons_false p c s :
  occurs p (c :: s) = false ->
  starts_with p (c :: s) = false /\ occurs p s = false.
Proof. cbn [occurs]. intros H. apply orb_false_iff in H. exact H. Qed.

Lemma take_separator (sep rest : list ascii) n : n <= length sep - 1 ->
  take n (sep ++ rest) = take n (removelast sep).
Proof.
  intros Hn. rewrite removelast_firstn_len.
  rewrite firstn_firstn.
  replace (Init.Nat.min n (Init.Nat.pred (length sep))) with n by lia.
  rewrite firstn_app. replace (n - length sep) with 0 by lia.
  rewrite firstn_O. now rewrite app_nil_r.
Qed.

(** A separable piece holds no start of the separator, whether the
    separator or nothing follows it. *)
Lemma separable_no_start_sep sep x rest :
  separable_chars sep x = true -> no_start sep x (sep ++ rest) = true.
Proof.
  unfold separable_chars. rewrite negb_true_iff.
  induction x as [|c x IH]; intros H; [reflexivity|].
  change ((c :: x) ++ removelast sep) with (c :: (x ++ removelast sep)) in H.
  apply occurs_cons_false in H as [H1 H2].
  cbn [no_start]. rewrite (IH H2), andb_true_r, negb_true_iff.
  rewrite <- H1.
  change (c :: x ++ removelast sep) with ((c :: x) ++ removelast sep).
  apply starts_with_tail. apply take_separator. cbn [length]. lia.
Qed.

Lemma separable_no_start_end sep x :
  separable_chars sep x = true -> no_start sep x [] = true.
Proof.
  unfold separable_chars. rewrite negb_true_iff.
  induction x as [|c x IH]; intros H; [reflexivity|].
  change ((c :: x) ++ removelast sep) with (c :: (x ++ removelast sep)) in H.
  apply occurs_cons_false in H as [H1 H2].
  cbn [no_start]. rewrite (IH H2), andb_true_r, negb_true_iff.
  destruct (starts_with sep ((c :: x) ++ [])) eqn:E; [|reflexivity].
  rewrite app_nil_r in E.
  apply (starts_with_extend _ _ (removelast sep)) in E.
  change ((c :: x) ++ removelast sep) with (c :: x ++ removelast sep) in E.
  congruence.
Qed.

Lemma split_go_join c sep l :
  l <> [] -> forallb (separable_chars (c :: sep)) l = true ->
  split_go (c :: sep) 0 (join_chars (c :: sep) l) = l.
Proof.
  induction l as [|x l IH]; intros Hne Hl; [contradiction|].
  cbn [forallb] in Hl. apply andb_true_iff in Hl as [Hx Hl].
  destruct l as [|y l].
  - cbn [join_chars]. rewrite <- (app_nil_r x) at 1.
    rewrite split_go_piece by (apply separable_no_start_end; assumption).
    cbn [split_go]. now rewrite app_nil_r.
  - change (join_chars (c :: sep) (x :: y :: l))
      with (x ++ (c :: sep) ++ join_chars (c :: sep) (y :: l)).
    rewrite split_go_piece by (apply separable_no_start_sep; assumption).
    rewrite split_go_separator, IH by (assumption || discriminate).
    now rewrite app_nil_r.
Qed.

(** [split] undoes [join] on a non-empty array of separable strings. *)
Lemma split_join l sep :
  sep <> "" -> l <> [] -> forallb (separable sep) l = true ->
  split (join l sep) sep = l.
Proof.
  intros Hsep Hl Hall. unfold split, join.
  rewrite list_ascii_of_string_of_list_ascii.
  destruct (list_ascii_of_string sep) as [|c sep'] eqn:E.
  { destruct sep; [contradiction | discriminate]. }
  cbn [split_chars]. rewrite split_go_join.
  - apply map_string_of_list_ascii.
  - destruct l; [contradiction | discriminate].
  - unfold separable in Hall. rewrite E in Hall. clear -Hall.
    induction l as [|x l IH]; [reflexivity|].
    cbn [forallb map] in *. apply andb_true_iff in Hall as [H1 H2].
    now rewrite H1, IH.
Qed.

(** For a separator of one character, separable means: without it. *)
Lemma separable_one_char c x :
  separable_chars [c] x = forallb (fun a => negb (Ascii.eqb c a)) x.
Proof.
  unfold separable_chars. cbn [removelast]. rewrite app_nil_r.
  induction x as [|a x IH]; [reflexivity|].
  cbn [occurs forallb starts_with]. rewrite andb_true_r, negb_orb. now rewrite IH.
Qed.

End JsStringFacts.

(** ** Dates *)

Module JsDateFacts.
Import JsNumberFacts.
Local Open Scope Z_scope.

Lemma timeClip_of_Z t : Z.abs t <= maxTime -> timeClip (of_Z t) = Some t.
Proof.
  intros Ht. destruct (Z.eq_dec t 0) as [-> | Hne]; [reflexivity|].
  destruct (pow10_decomposition t Hne) as (m & j & -> & Hr).
  unfold of_Z. rewrite decimal_pow by assumption. cbn [timeClip].
  rewrite Z.add_0_l.
  destruct (0 <=? Z.of_nat j) eqn:E; [|apply Z.leb_gt in E; lia].
  destruct (maxTime <? Z.abs (m * 10 ^ Z.of_nat j)) eqn:E'; [|reflexivity].
  apply Z.ltb_lt in E'. lia.
Qed.

Lemma valid_dateb_spec d : valid_dateb d = true <-> valid_date d.
Proof.
  unfold valid_dateb, valid_date. destruct (time d); [apply Z.leb_le | tauto].
Qed.

Lemma maxTime_lt : maxTime < 10 ^ 21.
Proof. reflexivity. Qed.

End JsDateFacts.

(** ** The converters *)

Module ConverterFacts.
Import JsNumberFacts JsStringFacts JsDateFacts Converter.

(** *** The loop over the schema *)

Section ForIn.
Context {F : Type}.
Implicit Types (fields : list (string * F)).
Implicit Types (body : string -> F -> gmap string JsValue -> result (gmap string JsValue)).

(** A loop whose body leaves the record alone at every field but [f]. *)
Lemma for_in_skip fields body f record :
  (forall g gd acc, g <> f -> body g gd acc = Ok acc) ->
  ~ In f (map fst fields) ->
  for_in fields body record = Ok record.
Proof.
  intros Hother. revert record.
  induction fields as [|[g gd] fields IH]; intros record Hnin; [reflexivity|].
  cbn [for_in]. cbn [map fst In] in Hnin.
  rewrite Hother by (intros ->; apply Hnin; now left).
  cbn [bind]. apply IH. intros H. apply Hnin. now right.
Qed.

(** A loop whose body writes [s] at the field [f] and leaves the record
    alone at the others. *)
Lemma for_in_only fields body f fd s record :
  NoDup (map fst fields) -> In (f, fd) fields ->
  (forall acc, body f fd acc = Ok (<[f := s]> acc)) ->
  (forall g gd acc, g <> f -> body g gd acc = Ok acc) ->
  for_in fields body record = Ok (<[f := s]> record).
Proof.
  intros Hnd Hin Hf Hother. revert record.
  induction fields as [|[g gd] fields IH]; intros record; [destruct Hin|].
  cbn [map fst] in Hnd. apply NoDup_cons in Hnd as [Hg Hnd].
  cbn [for_in]. destruct Hin as [[= -> ->] | Hin].
  - rewrite Hf. cbn [bind]. apply (for_in_skip _ _ f); [assumption|].
    intros H. apply Hg. now apply list_elem_of_In.
  - assert (g <> f) as Hne.
    { intros ->. apply Hg. apply list_elem_of_In.
      apply (in_map fst) in Hin. exact Hin. }
    rewrite Hother by assumption. cbn [bind]. now apply IH.
Qed.

(** A loop whose body never changes the key [k] does not change it. *)
Lemma for_in_preserves fields body k :
  (forall g gd acc r, body g gd acc = Ok r -> r !! k = acc !! k) ->
  forall record r, for_in fields body record = Ok r -> r !! k = record !! k.
Proof.
  intros Hbody.
  induction fields as [|[g gd] fields IH]; intros record r H.
  - cbn in H. now injection H as <-.
  - cbn [for_in] in H. destruct (body g gd record) as [acc| |] eqn:E;
      cbn [bind] in H; try discriminate.
    rewrite (IH _ _ H). now apply (Hbody g gd).
Qed.

End ForIn.

Lemma get_singleton f v : get {[f := v]} f = v.
Proof. unfold get. now rewrite lookup_singleton_eq. Qed.

Lemma get_singleton_ne f g v : g <> f -> get {[f := v]} g = JsUndefined.
Proof. intros H. unfold get. now rewrite lookup_singleton_ne. Qed.

Lemma get_undefined (record : gmap string JsValue) k :
  record !! k = None -> get record k = JsUndefined.
Proof. intros H. unfold get. now rewrite H. Qed.

(** *** Each converter undoes its opposite *)

Lemma stringToNumber_toString n :
  canonical n -> isNaN n = false -> stringToNumber (toString n) = Ok n.
Proof.
  intros Hc Hn. unfold stringToNumber. rewrite parseFloat_toString by assumption.
  now rewrite Hn.
Qed.

Lemma stringToBoolean_inverse (b : bool) :
  stringToBoolean (if b then "1" else "0") = Ok b.
Proof. now destruct b. Qed.

Lemma stringToDate_dateToString t :
  (Z.abs t <= maxTime)%Z ->
  stringToDate (dateToString {| time := Some t |}) = Ok {| time := Some t |}.
Proof.
  intros Ht. unfold stringToDate, dateToString, getTime. cbn [time].
  rewrite parseInt_toString_of_Z by (pose proof maxTime_lt; lia).
  rewrite isNaN_of_Z. unfold setTime. now rewrite timeClip_of_Z.
Qed.

Lemma numberToDate_dateToNumber d :
  valid_date d -> numberToDate (dateToNumber d) = d.
Proof.
  destruct d as [[t|]]; unfold valid_date, numberToDate, dateToNumber, getTime, setTime;
    cbn [time]; intros H; [|reflexivity].
  now rewrite timeClip_of_Z.
Qed.

Lemma pointToString_join p :
  pointToString p = JsString.join [toString (longitude p); toString (latitude p)] ",".
Proof.
  unfold pointToString, JsString.join. cbn [map JsString.join_chars].
  rewrite <- (string_of_list_ascii_of_string (_ +:+ _)).
  now rewrite !list_ascii_of_string_app.
Qed.

Lemma separable_comma_toString n : JsString.separable "," (toString n) = true.
Proof.
  unfold JsString.separable, toString.
  rewrite list_ascii_of_string_of_list_ascii.
  change (list_ascii_of_string ",") with [","%char].
  rewrite separable_one_char. apply render_not_comma.
Qed.

Lemma stringToPoint_pointToString p :
  canonical (longitude p) -> canonical (latitude p) ->
  stringToPoint (pointToString p) = JsPoint p.
Proof.
  intros Hlon Hlat. unfold stringToPoint.
  rewrite pointToString_join, split_join.
  - cbn [map nth]. now rewrite !parseFloat_toString.
  - discriminate.
  - discriminate.
  - cbn [forallb]. now rewrite !separable_comma_toString.
Qed.

Lemma as_string_array_strings elements :
  forallb is_string elements = true ->
  exists l, elements = map JsString l /\ mapM as_string elements = Ok l.
Proof.
  induction elements as [|x elements IH]; intros H.
  - exists []. split; reflexivity.
  - cbn [forallb] in H. apply andb_true_iff in H as [Hx H].
    destruct (IH H) as (l & -> & Hl).
    destruct x; try discriminate. exists (s :: l). split; [reflexivity|].
    cbn [mapM as_string bind]. now rewrite Hl.
Qed.

Lemma stringToStringArray_inverse fieldDef l :
  default "|" (separator fieldDef) <> "" -> l <> [] ->
  forallb (JsString.separable (default "|" (separator fieldDef))) l = true ->
  stringToStringArray (stringArrayToString l fieldDef) fieldDef = l.
Proof.
  intros Hsep Hl Hall. unfold stringToStringArray, stringArrayToString.
  now apply split_join.
Qed.

Lemma representable_defined fieldType v :
  representable fieldType v = true -> is_undefined v = false /\ is_null v = false.
Proof. destruct fieldType, v; try discriminate; split; reflexivity. Qed.

Lemma representable_point v :
  representable TPoint v = true ->
  exists p, v = JsPoint p /\ canonical (longitude p) /\ canonical (latitude p).
Proof.
  destruct v as [| | | | | | |properties]; try discriminate.
  destruct properties as [|[k1 [| |lon| | | | |]] [|[k2 [| |lat| | | | |]] [|? ?]]];
    try discriminate.
  cbn [representable]. intros H.
  apply andb_true_iff in H as [H Hlat]. apply andb_true_iff in H as [H Hlon].
  apply andb_true_iff in H as [H1 H2].
  apply String.eqb_eq in H1, H2. subst k1 k2.
  exists {| longitude := lon; latitude := lat |}.
  split; [reflexivity|]. split; now apply canonicalb_spec.
Qed.

Lemma as_Point_JsPoint p : as_Point (JsPoint p) = Ok p.
Proof. destruct p. reflexivity. Qed.

(** In the flat encoding, a field converter undoes its opposite on the
    representable values the encoding carries. *)
Lemma hash_field_roundtrip fieldDef v :
  representable (type fieldDef) v = true -> flat_encodable fieldDef v = true ->
  exists s, toHashConverters (type fieldDef) v fieldDef = Ok s
            /\ is_undefined s = false
            /\ fromHashConverters (type fieldDef) s fieldDef = Ok v.
Proof.
  unfold flat_encodable. intros Hrep Henc.
  destruct (type fieldDef) eqn:Et.
  - destruct v; try discriminate. eexists. repeat split.
  - destruct v; try discriminate. eexists. repeat split.
  - destruct v as [| |n| | | | |]; try discriminate.
    cbn [representable] in Hrep. apply canonicalb_spec in Hrep.
    apply negb_true_iff in Henc.
    eexists. split; [reflexivity|]. split; [reflexivity|].
    cbn [fromHashConverters as_string bind].
    now rewrite stringToNumber_toString.
  - destruct v as [| | |b| | | |]; try discriminate.
    eexists. split; [reflexivity|]. split; [reflexivity|].
    cbn [fromHashConverters as_string bind].
    now rewrite stringToBoolean_inverse.
  - destruct (representable_point v Hrep) as (p & -> & Hlon & Hlat).
    eexists. cbn [toHashConverters]. rewrite as_Point_JsPoint. cbn [bind].
    split; [reflexivity|]. split; [reflexivity|].
    cbn [fromHashConverters as_string bind].
    now rewrite stringToPoint_pointToString.
  - destruct v as [| | | | |d| |]; try discriminate.
    cbn [representable] in Hrep. destruct d as [[t|]]; [|discriminate].
    apply Z.leb_le in Hrep.
    eexists. split; [reflexivity|]. split; [reflexivity|].
    cbn [fromHashConverters as_string bind].
    now rewrite stringToDate_dateToString.
  - destruct v as [| | | | | |elements|]; try discriminate.
    cbn [representable] in Hrep.
    destruct (as_string_array_strings elements Hrep) as (l & -> & Hl).
    apply andb_true_iff in Henc as [Henc Hall].
    apply andb_true_iff in Henc as [Hsep Hne].
    apply negb_true_iff, String.eqb_neq in Hsep.
    eexists. cbn [toHashConverters as_string_array]. rewrite Hl. cbn [bind].
    split; [reflexivity|]. split; [reflexivity|].
    cbn [fromHashConverters as_string bind].
    rewrite stringToStringArray_inverse; [reflexivity | assumption | |].
    + destruct l; [discriminate Hne | discriminate].
    + clear -Hall. induction l as [|x l IH]; [reflexivity|].
      cbn [map forallb] in *. apply andb_true_iff in Hall as [H1 H2].
      now rewrite H1, IH.
  - destruct (representable_defined _ _ Hrep) as [Hu _].
    exists v. repeat split. assumption.
Qed.

(** In the structured encoding, a field converter undoes its opposite on
    every representable value. *)
Lemma json_field_roundtrip fieldType v :
  representable fieldType v = true ->
  exists j, toJsonConverters fieldType v = Ok j
            /\ is_undefined j = false /\ is_null j = false
            /\ fromJsonConverters fieldType j = Ok v.
Proof.
  intros Hrep. destruct (representable_defined _ _ Hrep) as [Hu Hn].
  destruct fieldType.
  - exists v. repeat split; assumption.
  - exists v. repeat split; assumption.
  - exists v. repeat split; assumption.
  - exists v. repeat split; assumption.
  - destruct (representable_point v Hrep) as (p & -> & Hlon & Hlat).
    eexists. cbn [toJsonConverters]. rewrite as_Point_JsPoint. cbn [bind].
    split; [reflexivity|]. split; [reflexivity|]. split; [reflexivity|].
    cbn [fromJsonConverters as_string bind].
    now rewrite stringToPoint_pointToString.
  - destruct v as [| | | | |d| |]; try discriminate.
    cbn [representable] in Hrep. apply valid_dateb_spec in Hrep.
    eexists. split; [reflexivity|]. split; [reflexivity|]. split; [reflexivity|].
    cbn [fromJsonConverters as_number bind].
    now rewrite numberToDate_dateToNumber.
  - exists v. repeat split; assumption.
  - exists v. repeat split; assumption.
Qed.

Lemma toHashConverters_total fieldDef v :
  representable (type fieldDef) v = true ->
  exists s, toHashConverters (type fieldDef) v fieldDef = Ok s.
Proof.
  intros Hrep. destruct (type fieldDef) eqn:Et.
  - destruct v; try discriminate. eexists. reflexivity.
  - destruct v; try discriminate. eexists. reflexivity.
  - destruct v; try discriminate. eexists. reflexivity.
  - destruct v; try discriminate. eexists. reflexivity.
  - destruct (representable_point v Hrep) as (p & -> & _).
    eexists. cbn [toHashConverters]. now rewrite as_Point_JsPoint.
  - destruct v; try discriminate. eexists. reflexivity.
  - destruct v as [| | | | | |elements|]; try discriminate.
    destruct (as_string_array_strings elements Hrep) as (l & -> & Hl).
    eexists. cbn [toHashConverters as_string_array]. now rewrite Hl.
  - eexists. reflexivity.
Qed.

Lemma toJsonConverters_total fieldType v :
  representable fieldType v = true -> exists j, toJsonConverters fieldType v = Ok j.
Proof.
  intros Hrep. destruct (json_field_roundtrip fieldType v Hrep) as (j & Hj & _).
  eauto.
Qed.

Lemma for_in_total {F : Type} (fields : list (string * F)) body :
  (forall g gd, In (g, gd) fields -> forall acc, exists r, body g gd acc = Ok r) ->
  forall record, exists r, for_in fields body record = Ok r.
Proof.
  induction fields as [|[g gd] fields IH]; intros Hbody record.
  - eexists. reflexivity.
  - cbn [for_in]. destruct (Hbody g gd (or_introl eq_refl) record) as (r & ->).
    cbn [bind]. apply IH. intros g' gd' Hin. apply Hbody. now right.
Qed.

Lemma for_in_ext {F : Type} (fields : list (string * F)) body1 body2 :
  (forall g gd acc, body1 g gd acc = body2 g gd acc) ->
  forall record, for_in fields body1 record = for_in fields body2 record.
Proof.
  intros H. induction fields as [|[g gd] fields IH]; intros record; [reflexivity|].
  cbn [for_in]. rewrite H. destruct (body2 g gd record); cbn [bind]; auto.
Qed.

(** *** A field that is unset stays unset *)

Lemma toHashData_field_preserves entityData k g gd acc r :
  get entityData k = JsUndefined ->
  HashConverter.toHashData_field entityData g gd acc = Ok r -> r !! k = acc !! k.
Proof.
  intros Hk. unfold HashConverter.toHashData_field.
  destruct (is_undefined (get entityData g)) eqn:E; cbn [negb].
  - now intros [= <-].
  - destruct (toHashConverters _ _ _) as [v| |]; cbn [bind]; try discriminate.
    intros [= <-]. apply lookup_insert_ne. intros ->. now rewrite Hk in E.
Qed.

Lemma toJsonData_field_preserves entityData k g gd acc r :
  get entityData k = JsUndefined ->
  JsonConverter.toJsonData_field entityData g gd acc = Ok r -> r !! k = acc !! k.
Proof.
  intros Hk. unfold JsonConverter.toJsonData_field.
  destruct (is_undefined (get entityData g)) eqn:E; cbn [negb].
  - now intros [= <-].
  - destruct (toJsonConverters _ _) as [v| |]; cbn [bind]; try discriminate.
    intros [= <-]. apply lookup_insert_ne. intros ->. now rewrite Hk in E.
Qed.

Lemma hash_toEntityData_field_preserves hashData k g gd acc r :
  get hashData k = JsUndefined ->
  HashConverter.toEntityData_field hashData g gd acc = Ok r -> r !! k = acc !! k.
Proof.
  intros Hk. unfold HashConverter.toEntityData_field.
  destruct (is_undefined (get hashData g)) eqn:E; cbn [negb].
  - now intros [= <-].
  - destruct (fromHashConverters _ _ _) as [v| |]; cbn [bind]; try discriminate.
    intros [= <-]. apply lookup_insert_ne. intros ->. now rewrite Hk in E.
Qed.

(** The structured decoding leaves unset a field whose stored value is
    [undefined] or [null]. *)
Lemma json_toEntityData_field_preserves jsonData k g gd acc r :
  get jsonData k = JsUndefined \/ get jsonData k = JsNull ->
  JsonConverter.toEntityData_field jsonData g gd acc = Ok r -> r !! k = acc !! k.
Proof.
  intros Hk. unfold JsonConverter.toEntityData_field.
  destruct (negb (is_undefined (get jsonData g)) && negb (is_null (get jsonData g))) eqn:E.
  - destruct (fromJsonConverters _ _) as [v| |]; cbn [bind]; try discriminate.
    intros [= <-]. apply lookup_insert_ne. intros ->.
    destruct Hk as [Hk | Hk]; rewrite Hk in E; discriminate.
  - now intros [= <-].
Qed.

(** *** Records of one field *)

Section OneField.
Variables (schemaDef : SchemaDefinition) (f : string) (fieldDef : FieldDefinition).
Hypothesis Hnodup : NoDup (map fst schemaDef).
Hypothesis Hin : In (f, fieldDef) schemaDef.

Lemma toHashData_single v s :
  is_undefined v = false -> toHashConverters (type fieldDef) v fieldDef = Ok s ->
  HashConverter.toHashData schemaDef {[f := v]} = Ok {[f := s]}.
Proof.
  intros Hv Hs. unfold HashConverter.toHashData.
  rewrite (for_in_only _ _ f fieldDef s); [now rewrite insert_empty | assumption..| |].
  - intros acc. unfold HashConverter.toHashData_field.
    rewrite get_singleton, Hv, Hs. reflexivity.
  - intros g gd acc Hne. unfold HashConverter.toHashData_field.
    now rewrite get_singleton_ne.
Qed.

Lemma hash_toEntityData_single s v :
  is_undefined s = false -> fromHashConverters (type fieldDef) s fieldDef = Ok v ->
  HashConverter.toEntityData schemaDef {[f := s]} = Ok {[f := v]}.
Proof.
  intros Hs Hv. unfold HashConverter.toEntityData.
  rewrite (for_in_only _ _ f fieldDef v); [now rewrite insert_empty | assumption..| |].
  - intros acc. unfold HashConverter.toEntityData_field.
    rewrite get_singleton, Hs, Hv. reflexivity.
  - intros g gd acc Hne. unfold HashConverter.toEntityData_field.
    now rewrite get_singleton_ne.
Qed.

Lemma toJsonData_single v j :
  is_undefined v = false -> toJsonConverters (type fieldDef) v = Ok j ->
  JsonConverter.toJsonData schemaDef {[f := v]} = Ok {[f := j]}.
Proof.
  intros Hv Hj. unfold JsonConverter.toJsonData.
  rewrite (for_in_only _ _ f fieldDef j); [now rewrite insert_empty | assumption..| |].
  - intros acc. unfold JsonConverter.toJsonData_field.
    rewrite get_singleton, Hv, Hj. reflexivity.
  - intros g gd acc Hne. unfold JsonConverter.toJsonData_field.
    now rewrite get_singleton_ne.
Qed.

Lemma json_toEntityData_single j v :
  is_undefined j = false -> is_null j = false ->
  fromJsonConverters (type fieldDef) j = Ok v ->
  JsonConverter.toEntityData schemaDef (Some {[f := j]}) = Ok {[f := v]}.
Proof.
  intros Hu Hn Hv. unfold JsonConverter.toEntityData.
  rewrite (for_in_only _ _ f fieldDef v); [now rewrite insert_empty | assumption..| |].
  - intros acc. unfold JsonConverter.toEntityData_field.
    rewrite get_singleton, Hu, Hn, Hv. reflexivity.
  - intros g gd acc Hne. unfold JsonConverter.toEntityData_field.
    now rewrite get_singleton_ne.
Qed.

End OneField.

End ConverterFacts.

(** ** The fluent search *)

Module SearchFacts.
Import Search.

Lemma chain_app this calls1 calls2 :
  chain this (calls1 ++ calls2)
  = (this' <- chain this calls1 ;; chain this' calls2).
Proof.
  revert this. induction calls1 as [|c calls1 IH]; intros this; [reflexivity|].
  cbn [app chain]. destruct (call this c); cbn [bind]; auto.
Qed.

Lemma createWhere_leaf this f leaf :
  createWhere this f = Ok leaf -> field leaf = f /\ operation leaf = None.
Proof.
  unfold createWhere. destruct (definition_of _ f) as [fieldDef|]; [|discriminate].
  destruct (type fieldDef), (dataStructure (schema this)); cbn;
    try discriminate; intros [= <-]; split; reflexivity.
Qed.

(** One call with a field name: the previous root, if any, becomes the
    left child of the combinator and the new leaf, finalized by its
    operator, the right child. *)
Lemma call_field this m f op leaf :
  createWhere this f = Ok leaf ->
  call this (CallField m f op)
  = Ok {| schema := schema this;
          rootWhere :=
            Some match rootWhere this with
                 | None => WhereRef (length (objects this))
                 | Some root => constructor_of m root (WhereRef (length (objects this)))
                 end;
          objects := objects this
                     ++ [{| whereClass := whereClass leaf; field := f;
                            operation := Some op |}] |}.
Proof.
  intros Hleaf. destruct (createWhere_leaf _ _ _ Hleaf) as [Hf _].
  unfold call, anyWhereForField. rewrite Hleaf. cbn [bind fst snd].
  unfold call_operator. cbn [schema rootWhere objects]. f_equal. f_equal.
  rewrite <- (Nat.add_0_r (length (objects this))) at 1.
  rewrite alter_app_r. cbn. now rewrite Hf.
Qed.

(** One call with a function: the root of the sub-search takes the place
    of the leaf. *)
Lemma call_function this m fn sub subRoot :
  fn (new_Search (schema this) (objects this)) = Ok sub ->
  rootWhere sub = Some subRoot ->
  call this (CallFunction m fn)
  = Ok {| schema := schema this;
          rootWhere :=
            Some match rootWhere this with
                 | None => subRoot
                 | Some root => constructor_of m root subRoot
                 end;
          objects := objects sub |}.
Proof.
  intros Hsub Hroot. unfold call, anyWhereForFunction.
  rewrite Hsub. cbn [bind]. now rewrite Hroot.
Qed.

End SearchFacts.

(** * The claims *)

Module Claims.
Import JsNumberFacts JsStringFacts JsDateFacts ConverterFacts Converter.
Local Open Scope Z_scope.

Import Examples.




(** The other values the flat encoding does not carry: the empty array
    comes back as the array of the empty string, and [NaN] and an invalid
    date are printed as ["NaN"], which the decoding rejects. *)
Lemma roundtrip_fails_on_empty_array_and_NaN :
  HashConverter.toHashData tagsSchema {["tags" := JsStringArray []]}
    = Ok {["tags" := JsString ""]}
  /\ HashConverter.toEntityData tagsSchema {["tags" := JsString ""]}
     = Ok {["tags" := JsStringArray [""]]}
  /\ toHashConverters TNumber (JsNumber NaN) (plain TNumber) = Ok (JsString "NaN")
  /\ fromHashConverters TNumber (JsString "NaN") (plain TNumber)
     = Throw (Error "Non-numeric value of 'NaN' read from Redis for number field.")
  /\ toHashConverters TDate (JsDate {| time := None |}) (plain TDate)
     = Ok (JsString "NaN")
  /\ fromHashConverters TDate (JsString "NaN") (plain TDate)
     = Throw (Error "Non-numeric value of 'NaN' read from Redis for date field.").
Proof. repeat split; reflexivity. Qed.

(** C2, as stated, fails: the point encodes to ["-122.27,37.8"], not to
    ["-122.27,37.80"]. *)
Lemma point_example_string_differs :
  toHashConverters TPoint (JsPoint aPoint) (plain TPoint) = Ok (JsString "-122.27,37.8")
  /\ toJsonConverters TPoint (JsPoint aPoint) = Ok (JsString "-122.27,37.8")
  /\ JsString "-122.27,37.8" <> JsString "-122.27,37.80".
Proof. repeat split; try reflexivity. discriminate. Qed.

(** C2, as amended: the point [{longitude: -122.27, latitude: 37.80}]
    encodes to the string ["-122.27,37.8"] in both encodings, and decoding
    that string, or the string ["-122.27,37.80"], gives the point back in
    both encodings. *)
Theorem point_example :
  pointToString aPoint = "-122.27,37.8"
  /\ toHashConverters TPoint (JsPoint aPoint) (plain TPoint) = Ok (JsString "-122.27,37.8")
  /\ toJsonConverters TPoint (JsPoint aPoint) = Ok (JsString "-122.27,37.8")
  /\ stringToPoint "-122.27,37.8" = JsPoint aPoint
  /\ stringToPoint "-122.27,37.80" = JsPoint aPoint
  /\ fromHashConverters TPoint (JsString "-122.27,37.8") (plain TPoint) = Ok (JsPoint aPoint)
  /\ fromJsonConverters TPoint (JsString "-122.27,37.8") = Ok (JsPoint aPoint).
Proof. repeat split; reflexivity. Qed.

(** C3, at the failing input: with the alias [str] on the field [aString],
    the flat encoding writes the value under the key [aString] and nothing
    under [str], and the decoding reads the key [aString] and ignores the
    key [str]; the index is declared on [str], and the property setter
    stores the value under [str], where the encoding does not look. *)
Theorem alias_not_used_as_key :
  HashConverter.toHashData aliasSchema {["aString" := JsString "foo"]}
    = Ok {["aString" := JsString "foo"]}
  /\ ({["aString" := JsString "foo"]} : gmap string JsValue) !! "str" = None
  /\ HashConverter.toEntityData aliasSchema {["str" := JsString "foo"]} = Ok ∅
  /\ HashConverter.toEntityData aliasSchema {["aString" := JsString "foo"]}
     = Ok {["aString" := JsString "foo"]}
  /\ SchemaBuilder.buildHashSchemaEntry "aString"
       {| type := TString; alias := Some "str"; separator := None |}
     = ["str"; "TAG"; "SEPARATOR"; "|"]
  /\ (forall Date_toString Date_parse,
        EntityProperty.setter Date_toString Date_parse "Foo" "aString"
          {| type := TString; alias := Some "str"; separator := None |}
          ∅ (JsString "foo")
        = Ok {["str" := JsString "foo"]})
  /\ HashConverter.toHashData aliasSchema {["str" := JsString "foo"]} = Ok ∅.
Proof. repeat split; reflexivity. Qed.

(** Whatever the aliases, the keys of the flat record are names of fields
    of the schema. *)
Lemma toHashData_keys schemaDef entityData hashData k :
  HashConverter.toHashData schemaDef entityData = Ok hashData ->
  is_Some (hashData !! k) -> In k (map fst schemaDef).
Proof.
  unfold HashConverter.toHashData. intros H Hk.
  assert (is_Some ((∅ : gmap string JsValue) !! k) \/ In k (map fst schemaDef)) as [H0 | H0].
  { revert H. generalize (∅ : gmap string JsValue) as acc.
    induction schemaDef as [|[g gd] rest IH]; intros acc H.
    - cbn in H. injection H as <-. now left.
    - cbn [for_in] in H.
      destruct (HashConverter.toHashData_field entityData g gd acc) as [acc'| |] eqn:E;
        cbn [bind] in H; try discriminate.
      destruct (IH _ H) as [Hacc | Hin]; [|right; now right].
      unfold HashConverter.toHashData_field in E.
      destruct (negb (is_undefined (get entityData g))).
      + destruct (toHashConverters _ _ _); cbn [bind] in E; try discriminate.
        injection E as <-. destruct (String.eqb_spec g k) as [-> | Hne].
        * right. now left.
        * rewrite lookup_insert_ne in Hacc by assumption. now left.
      + injection E as <-. now left. }
  - rewrite lookup_empty in H0. now destruct H0.
  - assumption.
Qed.

(** Every string other than ["0"] and ["1"] under a boolean field makes the
    flat decoding fail: no entity data comes back, with [false] or anything
    else at the field. *)
Lemma boolean_decode_never_returns schemaDef f fieldDef s :
  NoDup (map fst schemaDef) -> In (f, fieldDef) schemaDef ->
  type fieldDef = TBoolean -> s <> "0" -> s <> "1" ->
  forall hashData entityData, hashData !! f = Some (JsString s) ->
  HashConverter.toEntityData schemaDef hashData <> Ok entityData.
Proof.
  intros Hnd Hin Ht H0 H1 hashData entityData Hf. unfold HashConverter.toEntityData.
  generalize (∅ : gmap string JsValue) as acc.
  induction schemaDef as [|[g gd] rest IH]; intros acc; [destruct Hin|].
  cbn [map fst] in Hnd. apply NoDup_cons in Hnd as [Hg Hnd].
  cbn [for_in]. destruct Hin as [[= -> ->] | Hin].
  - unfold HashConverter.toEntityData_field at 1. unfold get. rewrite Hf, Ht.
    cbn [default from_option id is_undefined negb fromHashConverters as_string bind].
    unfold stringToBoolean.
    apply String.eqb_neq in H0, H1. rewrite H0, H1. cbn [bind]. discriminate.
  - destruct (HashConverter.toEntityData_field hashData g gd acc) as [acc'|e|];
      cbn [bind]; [now apply IH | discriminate | discriminate].
Qed.

(** With the boolean field alone in the record, the error thrown is the one
    of [stringToBoolean]: it quotes the string. *)
Lemma boolean_decode_error schemaDef f fieldDef s :
  NoDup (map fst schemaDef) -> In (f, fieldDef) schemaDef ->
  type fieldDef = TBoolean -> s <> "0" -> s <> "1" ->
  HashConverter.toEntityData schemaDef {[f := JsString s]}
  = Throw (Error ("Non-boolean value of '" +:+ s
                  +:+ "' read from Redis for boolean field.")).
Proof.
  intros Hnd Hin Ht H0 H1. unfold HashConverter.toEntityData.
  generalize (∅ : gmap string JsValue) as acc.
  induction schemaDef as [|[g gd] rest IH]; intros acc; [destruct Hin|].
  cbn [map fst] in Hnd. apply NoDup_cons in Hnd as [Hg Hnd].
  cbn [for_in]. destruct Hin as [[= -> ->] | Hin].
  - unfold HashConverter.toEntityData_field at 1. rewrite get_singleton, Ht.
    cbn [is_undefined negb fromHashConverters as_string bind].
    unfold stringToBoolean.
    apply String.eqb_neq in H0, H1. now rewrite H0, H1.
  - assert (g <> f) as Hne.
    { intros ->. apply Hg. apply list_elem_of_In.
      apply (in_map fst) in Hin. exact Hin. }
    unfold HashConverter.toEntityData_field at 1.
    rewrite get_singleton_ne by assumption. cbn [is_undefined negb bind].
    now apply IH.
Qed.

(** C4, at the failing input: decoding the flat record [{aBoolean: "maybe"}]
    throws; the message of [stringToBoolean] quotes the value ["maybe"] and
    does not name the field [aBoolean], which the message of [addBoolean]
    in hash-converter.ts does. *)
Theorem boolean_error_names_no_field :
  HashConverter.toEntityData fooSchema {["aBoolean" := JsString "maybe"]}
    = Throw (Error "Non-boolean value of 'maybe' read from Redis for boolean field.")
  /\ JsString.includes
       "Non-boolean value of 'maybe' read from Redis for boolean field." "maybe" = true
  /\ JsString.includes
       "Non-boolean value of 'maybe' read from Redis for boolean field." "aBoolean" = false
  /\ LegacyHashConverter.toEntityData legacyBoolean {["aBoolean" := JsString "maybe"]}
     = Throw (Error "Non-boolean value of 'maybe' read from Redis for boolean field 'aBoolean'").
Proof. repeat split; reflexivity. Qed.

(** C6: in the structured encoding, decoding [null] gives the empty entity
    data, and a field stored as [null] is decoded as if its key were
    missing: the outcome is that of the record without the key, its entity
    data lacks the field, and a record of [null] fields alone decodes to
    the empty entity data. *)
Theorem json_null_is_absent schemaDef jsonData f :
  jsonData !! f = Some JsNull ->
  JsonConverter.toEntityData schemaDef None = Ok ∅
  /\ JsonConverter.toEntityData schemaDef (Some jsonData)
     = JsonConverter.toEntityData schemaDef (Some (delete f jsonData))
  /\ (forall entityData,
        JsonConverter.toEntityData schemaDef (Some jsonData) = Ok entityData ->
        entityData !! f = None)
  /\ JsonConverter.toEntityData schemaDef (Some {[f := JsNull]}) = Ok ∅.
Proof.
  intros Hnull.
  assert (get jsonData f = JsNull) as Hget by (unfold get; now rewrite Hnull).
  split; [reflexivity|]. split; [|split].
  - cbn [JsonConverter.toEntityData]. apply for_in_ext. intros g gd acc.
    unfold JsonConverter.toEntityData_field.
    destruct (String.eqb_spec g f) as [-> | Hne].
    + rewrite Hget. unfold get. now rewrite lookup_delete_eq.
    + unfold get. now rewrite lookup_delete_ne by congruence.
  - intros entityData H. cbn [JsonConverter.toEntityData] in H.
    rewrite (for_in_preserves _ _ f
               (fun g gd acc r => json_toEntityData_field_preserves
                                    jsonData f g gd acc r (or_intror Hget)) _ _ H).
    apply lookup_empty.
  - cbn [JsonConverter.toEntityData].
    generalize (∅ : gmap string JsValue) as acc.
    induction schemaDef as [|[g gd] rest IH]; intros acc; [reflexivity|].
    cbn [for_in]. unfold JsonConverter.toEntityData_field at 1.
    destruct (String.eqb_spec g f) as [-> | Hne].
    + rewrite get_singleton. cbn [is_undefined is_null negb andb bind]. apply IH.
    + rewrite get_singleton_ne by assumption.
      cbn [is_undefined is_null negb andb bind]. apply IH.
Qed.

Lemma json_null_is_absent_witness :
  ({["aString" := JsString "foo"; "aBoolean" := JsNull]} : gmap string JsValue)
    !! "aBoolean" = Some JsNull
  /\ JsonConverter.toEntityData fooSchema
       (Some {["aString" := JsString "foo"; "aBoolean" := JsNull]})
     = Ok {["aString" := JsString "foo"]}
  /\ JsonConverter.toEntityData fooSchema (Some {["aBoolean" := JsNull]}) = Ok ∅.
Proof.
  assert (({["aString" := JsString "foo"; "aBoolean" := JsNull]}
             : gmap string JsValue) !! "aBoolean" = Some JsNull) as H
    by reflexivity.
  destruct (json_null_is_absent fooSchema _ "aBoolean" H) as (_ & _ & _ & Hempty).
  split; [exact H|]. split; [reflexivity | exact Hempty].
Defined.

(** C7: for a schema of one string-array field, whatever its separator, the
    structured-encoding builder emits exactly one declaration: the path
    [$.alias[*]], [AS], the alias (the field name by default) and the type
    [TAG], with no separator option; the flat-encoding declaration carries
    the option. For the field [tags] it is [$.tags[*] AS tags TAG]. *)
Theorem json_string_array_declaration field fieldAlias sep :
  let fieldDef := {| type := TStringArray; alias := fieldAlias; separator := sep |} in
  let a := default field fieldAlias in
  SchemaBuilder.jsonSchemaEntries [(field, fieldDef)]
    = [["$." +:+ a +:+ "[*]"; "AS"; a; "TAG"]]
  /\ SchemaBuilder.redisSchema
       {| definition := [(field, fieldDef)]; dataStructure := JSON |}
     = ["$." +:+ a +:+ "[*]"; "AS"; a; "TAG"]
  /\ SchemaBuilder.redisSchema
       {| definition := [(field, fieldDef)]; dataStructure := HASH |}
     = [a; "TAG"; "SEPARATOR"; default "|" sep]
  /\ SchemaBuilder.redisSchema {| definition := tagsSchema; dataStructure := JSON |}
     = ["$.tags[*]"; "AS"; "tags"; "TAG"].
Proof. repeat split; reflexivity. Qed.



(** C9: whatever the field, its definition and the entity data, the setter
    throws on [undefined] the error that tells to use [null], and on [null]
    removes the field (the key the property uses) from the entity data,
    after which the getter reads [null]; on [undefined] it returns no
    entity data. *)
Theorem setter_undefined_throws_null_removes
    (Date_toString : Date -> string) (Date_parse : string -> Date)
    (entityName field : string) (fieldDef : FieldDefinition)
    (entityData : gmap string JsValue) :
  EntityProperty.setter Date_toString Date_parse entityName field fieldDef
    entityData JsUndefined
  = Throw (Error ("Property '" +:+ field +:+ "' on entity of type '" +:+ entityName
                  +:+ "' cannot be set to undefined. Use null instead."))
  /\ (forall entityData',
        EntityProperty.setter Date_toString Date_parse entityName field fieldDef
          entityData JsUndefined <> Ok entityData')
  /\ EntityProperty.setter Date_toString Date_parse entityName field fieldDef
       entityData JsNull
     = Ok (delete (default field (alias fieldDef)) entityData)
  /\ delete (default field (alias fieldDef)) entityData
       !! default field (alias fieldDef) = None
  /\ EntityProperty.getter field fieldDef
       (delete (default field (alias fieldDef)) entityData) = JsNull.
Proof.
  repeat split.
  - discriminate.
  - apply lookup_delete_eq.
  - unfold EntityProperty.getter, EntityProperty.fieldAlias, get.
    now rewrite lookup_delete_eq.
Qed.





End Claims.

(* ================================================================== *)
(** * Further properties of the converters *)
(* ================================================================== *)

Module ConverterLoops.
Import JsNumberFacts JsStringFacts JsDateFacts ConverterFacts Converter.

Lemma bind_ok_inv {A B : Type} (r : result A) (k : A -> result B) b :
  bind r k = Ok b -> exists a, r = Ok a /\ k a = Ok b.
Proof. destruct r; cbn; try discriminate. eauto. Qed.

Section ForIn.
Context {F : Type}.
Implicit Types (fields : list (string * F)).
Implicit Types (body : string -> F -> gmap string JsValue -> result (gmap string JsValue)).

(** A loop whose body writes at its field a value that does not depend on
    the record: the outcome field by field. *)
Lemma for_in_fields fields body (R : string -> F -> option JsValue -> Prop) :
  NoDup (map fst fields) ->
  (forall g gd, In (g, gd) fields ->
     exists o, R g gd o /\ forall acc, body g gd acc = Ok (write_at o g acc)) ->
  forall acc, exists r,
    for_in fields body acc = Ok r
    /\ (forall g gd, In (g, gd) fields ->
          exists o, R g gd o
                    /\ r !! g = match o with Some v => Some v | None => acc !! g end)
    /\ (forall k, ~ In k (map fst fields) -> r !! k = acc !! k).
Proof.
  induction fields as [|[g gd] fields IH]; intros Hnd Hbody acc.
  - exists acc. split; [reflexivity|]. split; [intros ? ? []|reflexivity].
  - cbn [map fst] in Hnd. apply NoDup_cons in Hnd as [Hg Hnd].
    rewrite list_elem_of_In in Hg.
    destruct (Hbody g gd (or_introl eq_refl)) as (o & HR & Ho).
    destruct (IH Hnd (fun g' gd' H => Hbody g' gd' (or_intror H)) (write_at o g acc))
      as (r & Hr & Hfields & Hother).
    unfold write_at in *.
    exists r. cbn [for_in]. rewrite Ho. cbn [bind]. split; [exact Hr|]. split.
    + intros g' gd' [[= <- <-] | Hin].
      * exists o. split; [exact HR|]. rewrite (Hother g Hg).
        destruct o; [apply lookup_insert_eq | reflexivity].
      * destruct (Hfields g' gd' Hin) as (o' & HR' & Ho').
        exists o'. split; [exact HR'|]. rewrite Ho'.
        destruct o'; [reflexivity|].
        assert (g <> g') as Hne.
        { intros ->. apply Hg. apply (in_map fst) in Hin. exact Hin. }
        destruct o; [now rewrite lookup_insert_ne | reflexivity].
    + intros k Hk. cbn [map fst In] in Hk.
      rewrite Hother by tauto.
      destruct o; [rewrite lookup_insert_ne; [reflexivity | tauto] | reflexivity].
Qed.

(** The keys of the outcome: those of the record the loop started from and
    the fields at which the body wrote. *)
Lemma for_in_keys fields body (writes : string -> bool) :
  (forall g gd acc r, body g gd acc = Ok r ->
     r = acc /\ writes g = false \/ exists v, r = <[g := v]> acc /\ writes g = true) ->
  forall acc r k, for_in fields body acc = Ok r ->
    (is_Some (r !! k) <->
     is_Some (acc !! k) \/ (In k (map fst fields) /\ writes k = true)).
Proof.
  intros Hbody. induction fields as [|[g gd] fields IH]; intros acc r k H.
  - cbn in H. injection H as <-. cbn. tauto.
  - cbn [for_in] in H. destruct (body g gd acc) as [acc'| |] eqn:E;
      cbn [bind] in H; try discriminate.
    rewrite (IH _ _ k H). cbn [map fst In].
    destruct (Hbody _ _ _ _ E) as [[-> Hw] | (v & -> & Hw)].
    + split; [tauto|]. intros [H1 | [[<- | H2] H3]]; [tauto | congruence | tauto].
    + destruct (String.eqb_spec g k) as [-> | Hne].
      * rewrite lookup_insert_eq. split; [tauto|]. intros _. left. eauto.
      * rewrite lookup_insert_ne by assumption. tauto.
Qed.

(** A loop whose body reads the records only at its field gives the same
    outcome on records that agree at the fields. *)
Lemma for_in_ext_in fields body1 body2 :
  (forall g gd acc, In (g, gd) fields -> body1 g gd acc = body2 g gd acc) ->
  forall acc, for_in fields body1 acc = for_in fields body2 acc.
Proof.
  induction fields as [|[g gd] fields IH]; intros H acc; [reflexivity|].
  cbn [for_in]. rewrite (H g gd acc (or_introl eq_refl)).
  destruct (body2 g gd acc); cbn [bind]; try reflexivity.
  apply IH. intros g' gd' acc' Hin. apply H. now right.
Qed.

(** A loop returns a record exactly when its body does at every field,
    provided that does not depend on the record. *)
Lemma for_in_ok_iff fields body (P : string -> F -> Prop) :
  (forall g gd acc, In (g, gd) fields ->
     (exists r, body g gd acc = Ok r) <-> P g gd) ->
  forall acc, (exists r, for_in fields body acc = Ok r)
              <-> (forall g gd, In (g, gd) fields -> P g gd).
Proof.
  induction fields as [|[g gd] fields IH]; intros H acc.
  - cbn. split; [intros _ ? ? [] | eauto].
  - cbn [for_in]. split.
    + intros (r & Hr) g' gd' Hin.
      destruct (body g gd acc) as [acc'| |] eqn:E; cbn [bind] in Hr; try discriminate.
      destruct Hin as [[= <- <-] | Hin].
      * apply (H g gd acc (or_introl eq_refl)). eauto.
      * eapply (IH (fun g0 gd0 acc0 H0 => H g0 gd0 acc0 (or_intror H0)) acc'); eauto.
    + intros HP.
      destruct (proj2 (H g gd acc (or_introl eq_refl)) (HP g gd (or_introl eq_refl)))
        as (acc' & ->).
      cbn [bind].
      apply (IH (fun g0 gd0 acc0 H0 => H g0 gd0 acc0 (or_intror H0)) acc').
      intros g' gd' Hin. apply HP. now right.
Qed.

(** A property of the record that every turn of the loop keeps. *)
Lemma for_in_invariant fields body (P : gmap string JsValue -> Prop) :
  (forall g gd acc r, In (g, gd) fields -> P acc -> body g gd acc = Ok r -> P r) ->
  forall acc r, P acc -> for_in fields body acc = Ok r -> P r.
Proof.
  induction fields as [|[g gd] fields IH]; intros Hbody acc r Hacc H.
  - cbn in H. now injection H as <-.
  - cbn [for_in] in H. destruct (body g gd acc) as [acc'| |] eqn:E;
      cbn [bind] in H; try discriminate.
    apply (IH (fun g0 gd0 acc0 r0 H0 => Hbody g0 gd0 acc0 r0 (or_intror H0)) acc');
      [|assumption].
    apply (Hbody g gd acc); [now left | assumption | assumption].
Qed.

(** A loop whose body never throws never throws. *)
Lemma for_in_no_throw fields body :
  (forall g gd acc e, body g gd acc <> Throw e) ->
  forall acc e, for_in fields body acc <> Throw e.
Proof.
  intros H. induction fields as [|[g gd] fields IH]; intros acc e; [discriminate|].
  cbn [for_in]. destruct (body g gd acc) as [acc'|e'|] eqn:E; cbn [bind].
  - apply IH.
  - exfalso. apply (H _ _ _ _ E).
  - discriminate.
Qed.

End ForIn.

(** Each body writes at its own key, when its source is defined there, or
    leaves the record as it is. *)
Lemma toHashData_field_writes entityData g gd acc r :
  HashConverter.toHashData_field entityData g gd acc = Ok r ->
  r = acc /\ negb (is_undefined (get entityData g)) = false
  \/ exists v, r = <[g := v]> acc /\ negb (is_undefined (get entityData g)) = true.
Proof.
  unfold HashConverter.toHashData_field.
  destruct (negb (is_undefined (get entityData g))).
  - destruct (toHashConverters _ _ _); cbn [bind]; try discriminate.
    intros [= <-]. right. eauto.
  - intros [= <-]. now left.
Qed.

Lemma toJsonData_field_writes entityData g gd acc r :
  JsonConverter.toJsonData_field entityData g gd acc = Ok r ->
  r = acc /\ negb (is_undefined (get entityData g)) = false
  \/ exists v, r = <[g := v]> acc /\ negb (is_undefined (get entityData g)) = true.
Proof.
  unfold JsonConverter.toJsonData_field.
  destruct (negb (is_undefined (get entityData g))).
  - destruct (toJsonConverters _ _); cbn [bind]; try discriminate.
    intros [= <-]. right. eauto.
  - intros [= <-]. now left.
Qed.

Lemma hash_toEntityData_field_writes record g gd acc r :
  HashConverter.toEntityData_field record g gd acc = Ok r ->
  r = acc /\ negb (is_undefined (get record g)) = false
  \/ exists v, r = <[g := v]> acc /\ negb (is_undefined (get record g)) = true.
Proof.
  unfold HashConverter.toEntityData_field.
  destruct (negb (is_undefined (get record g))).
  - destruct (fromHashConverters _ _ _); cbn [bind]; try discriminate.
    intros [= <-]. right. eauto.
  - intros [= <-]. now left.
Qed.

Lemma json_toEntityData_field_writes record g gd acc r :
  JsonConverter.toEntityData_field record g gd acc = Ok r ->
  r = acc
  /\ negb (is_undefined (get record g)) && negb (is_null (get record g)) = false
  \/ exists v, r = <[g := v]> acc
               /\ negb (is_undefined (get record g)) && negb (is_null (get record g)) = true.
Proof.
  unfold JsonConverter.toEntityData_field.
  destruct (negb (is_undefined (get record g)) && negb (is_null (get record g))).
  - destruct (fromJsonConverters _ _); cbn [bind]; try discriminate.
    intros [= <-]. right. eauto.
  - intros [= <-]. now left.
Qed.

(** The loop over a schema whose definitions were mapped. *)
Lemma for_in_map {F G : Type} (f : F -> G) (fields : list (string * F)) body :
  forall acc,
    for_in (map (fun '(g, gd) => (g, f gd)) fields) body acc
    = for_in fields (fun g gd => body g (f gd)) acc.
Proof.
  induction fields as [|[g gd] fields IH]; intros acc; [reflexivity|].
  cbn [map for_in]. destruct (body g (f gd) acc); cbn [bind]; auto.
Qed.

(** Two loops whose bodies agree but for the text of an error agree but
    for the text of the error. *)
Lemma for_in_same_outcome {F : Type} (fields : list (string * F)) body1 body2 :
  (forall g gd acc, same_outcome (body1 g gd acc) (body2 g gd acc)) ->
  forall acc, same_outcome (for_in fields body1 acc) (for_in fields body2 acc).
Proof.
  intros H. induction fields as [|[g gd] fields IH]; intros acc; [reflexivity|].
  cbn [for_in]. specialize (H g gd acc).
  destruct (body1 g gd acc), (body2 g gd acc); cbn [same_outcome bind] in *;
    try contradiction; try exact I.
  subst. apply IH.
Qed.

(** *** Conversions that do not throw *)

Lemma bind_no_throw {A B : Type} (r : result A) (k : A -> result B) e :
  r <> Throw e -> (forall a, k a <> Throw e) -> bind r k <> Throw e.
Proof.
  destruct r; cbn; intros H1 H2; [apply H2 | | discriminate].
  intros [= ->]. now apply H1.
Qed.

Lemma mapM_as_string_no_throw l e : mapM as_string l <> Throw e.
Proof.
  induction l as [|x l IH]; [discriminate|]. cbn [mapM].
  apply bind_no_throw; [destruct x; discriminate|]. intros a.
  apply bind_no_throw; [exact IH | discriminate].
Qed.

Lemma as_Point_no_throw v e : as_Point v <> Throw e.
Proof.
  destruct v as [| | | | | | |props]; try discriminate. cbn [as_Point].
  apply bind_no_throw; [destruct (property props "longitude"); discriminate|].
  intros lon. apply bind_no_throw; [|discriminate].
  destruct (property props "latitude"); discriminate.
Qed.

Lemma toHashConverters_no_throw fieldType v fieldDef e :
  toHashConverters fieldType v fieldDef <> Throw e.
Proof.
  destruct fieldType; cbn [toHashConverters]; try discriminate;
    (apply bind_no_throw; [|discriminate]);
    try apply as_Point_no_throw; destruct v; try discriminate.
  apply mapM_as_string_no_throw.
Qed.

Lemma toJsonConverters_no_throw fieldType v e :
  toJsonConverters fieldType v <> Throw e.
Proof.
  destruct fieldType; cbn [toJsonConverters]; try discriminate;
    (apply bind_no_throw; [|discriminate]);
    try apply as_Point_no_throw; destruct v; discriminate.
Qed.

Lemma fromJsonConverters_no_throw fieldType v e :
  fromJsonConverters fieldType v <> Throw e.
Proof.
  destruct fieldType; cbn [fromJsonConverters]; try discriminate;
    (apply bind_no_throw; [|discriminate]); destruct v; discriminate.
Qed.

End ConverterLoops.

Module Extras.
Import JsNumberFacts JsStringFacts JsDateFacts ConverterFacts Converter ConverterLoops.
Import Examples MoreExamples.
Local Open Scope Z_scope.

(** Goes through the fields of a schema given by its list. *)
Ltac each_field Hin :=
  cbn in Hin;
  repeat (destruct Hin as [Hin | Hin];
          [first [injection Hin as <- <- | subst] |]);
  try contradiction.







(** X4: the converters read a record only at the fields the schema
    declares: on two records that agree there, each of the four
    conversions has the same outcome. *)
Theorem only_declared_fields_read schemaDef (r1 r2 : gmap string JsValue) :
  (forall k, In k (map fst schemaDef) -> get r1 k = get r2 k) ->
  HashConverter.toHashData schemaDef r1 = HashConverter.toHashData schemaDef r2
  /\ JsonConverter.toJsonData schemaDef r1 = JsonConverter.toJsonData schemaDef r2
  /\ HashConverter.toEntityData schemaDef r1 = HashConverter.toEntityData schemaDef r2
  /\ JsonConverter.toEntityData schemaDef (Some r1)
     = JsonConverter.toEntityData schemaDef (Some r2).
Proof.
  intros H.
  assert (forall g gd, In (g, gd) schemaDef -> get r1 g = get r2 g) as H'.
  { intros g gd Hin. apply H. apply (in_map fst) in Hin. exact Hin. }
  split; [|split; [|split]]; apply for_in_ext_in; intros g gd acc Hin.
  - unfold HashConverter.toHashData_field. now rewrite (H' g gd Hin).
  - unfold JsonConverter.toJsonData_field. now rewrite (H' g gd Hin).
  - unfold HashConverter.toEntityData_field. now rewrite (H' g gd Hin).
  - unfold JsonConverter.toEntityData_field. now rewrite (H' g gd Hin).
Qed.

Lemma only_declared_fields_read_witness :
  HashConverter.toHashData fooSchema fooEntity
  = HashConverter.toHashData fooSchema (delete "other" fooEntity)
  /\ HashConverter.toEntityData fooSchema fooHash
     = HashConverter.toEntityData fooSchema (<["other" := JsNumber NaN]> fooHash).
Proof.
  split.
  - apply (only_declared_fields_read fooSchema fooEntity (delete "other" fooEntity)).
    intros k Hin. each_field Hin; reflexivity.
  - apply (only_declared_fields_read fooSchema fooHash
             (<["other" := JsNumber NaN]> fooHash)).
    intros k Hin. each_field Hin; reflexivity.
Defined.

(** X5: every value of a flat record is a string, except under an object
    field, where it is the entity value itself. *)
Theorem flat_values_are_strings schemaDef (entityData hashData : gmap string JsValue)
    k v :
  HashConverter.toHashData schemaDef entityData = Ok hashData ->
  hashData !! k = Some v ->
  is_string v = true
  \/ (exists fieldDef, In (k, fieldDef) schemaDef /\ type fieldDef = TObject
                       /\ v = get entityData k).
Proof.
  intros H. revert k v.
  apply (for_in_invariant schemaDef (HashConverter.toHashData_field entityData)
           (fun hd => forall k v, hd !! k = Some v ->
              is_string v = true
              \/ (exists fieldDef, In (k, fieldDef) schemaDef /\ type fieldDef = TObject
                                   /\ v = get entityData k))) with (acc := ∅);
    [| intros k v; rewrite lookup_empty; discriminate | exact H].
  intros g gd acc r Hin Hacc. unfold HashConverter.toHashData_field.
  destruct (negb (is_undefined (get entityData g))); [|now intros [= <-]].
  destruct (toHashConverters (type gd) (get entityData g) gd) as [s| |] eqn:E;
    cbn [bind]; try discriminate.
  intros [= <-] k v. destruct (String.eqb_spec g k) as [-> | Hne].
  - rewrite lookup_insert_eq. intros [= <-].
    destruct (type gd) eqn:Et; cbn [toHashConverters] in E;
      try (apply bind_ok_inv in E as (a & _ & [= <-]); now left).
    injection E as <-. right. eauto.
  - rewrite lookup_insert_ne by assumption. apply Hacc.
Qed.

Lemma flat_values_are_strings_witness :
  exists hashData : gmap string JsValue,
    HashConverter.toHashData fooSchema fooEntity = Ok hashData
    /\ hashData !! "aNumber" = Some (JsString "42")
    /\ (is_string (JsString "42") = true
        \/ (exists fieldDef, In ("aNumber", fieldDef) fooSchema
                             /\ type fieldDef = TObject
                             /\ JsString "42" = get fooEntity "aNumber")).
Proof.
  eexists.
  assert (HashConverter.toHashData fooSchema fooEntity = Ok _) as H by reflexivity.
  split; [exact H|]. split; [reflexivity|].
  apply (flat_values_are_strings fooSchema fooEntity _ "aNumber" _ H). reflexivity.
Defined.


(** What the flat decoding of one stored value needs. *)
Lemma fromHashConverters_ok_iff fieldDef v :
  is_undefined v = false ->
  (exists x, fromHashConverters (type fieldDef) v fieldDef = Ok x)
  <-> decodable fieldDef v = true.
Proof.
  intros Hv. unfold decodable.
  destruct (type fieldDef) eqn:Et; cbn [fromHashConverters];
    destruct v as [| | | |s| | |]; cbn [as_string bind]; try discriminate Hv;
    try (split; [intros [x [=]] | discriminate]);
    try (split; [reflexivity | eauto]).
  - unfold stringToNumber. rewrite isNaN_parseFloat, negb_involutive.
    destruct (has_numeric_prefix s); cbn [bind];
      (split; [first [reflexivity | intros [x [=]]] | first [discriminate | eauto]]).
  - unfold stringToBoolean.
    destruct (String.eqb s "0"); [split; [reflexivity | eauto]|].
    destruct (String.eqb s "1"); cbn [bind orb];
      (split; [first [reflexivity | intros [x [=]]] | first [discriminate | eauto]]).
  - unfold stringToDate. rewrite isNaN_parseInt.
    destruct (has_integer_prefix s); cbn [negb bind];
      (split; [first [reflexivity | intros [x [=]]] | first [discriminate | eauto]]).
Qed.



(** *** Splitting, then joining *)

Lemma join_chars_cons sep c p ps :
  JsString.join_chars sep ((c :: p) :: ps) = c :: JsString.join_chars sep (p :: ps).
Proof. destruct ps; reflexivity. Qed.

Lemma starts_with_prefix p : forall s,
  starts_with p s = true -> s = p ++ drop (length p) s.
Proof.
  induction p as [|a p IH]; intros s H; [reflexivity|].
  destruct s as [|b s]; [discriminate|]. cbn [starts_with] in H.
  apply andb_true_iff in H as [Hab H]. apply Ascii.eqb_eq in Hab. subst b.
  cbn [length drop app]. f_equal. now apply IH.
Qed.

Lemma join_split_go c sep s : forall k,
  JsString.join_chars (c :: sep) (JsString.split_go (c :: sep) k s) = drop k s.
Proof.
  induction s as [|a s IH]; intros k; [now destruct k|].
  cbn [JsString.split_go]. destruct k as [|k]; [|apply IH].
  replace (length (c :: sep) - 1)%nat with (length sep) by (cbn [length]; lia).
  destruct (starts_with (c :: sep) (a :: s)) eqn:E.
  - pose proof (split_go_nonempty (c :: sep) s (length sep)) as Hne.
    pose proof (IH (length sep)) as Hrest.
    destruct (JsString.split_go (c :: sep) (length sep) s) as [|p ps];
      [contradiction|].
    change (JsString.join_chars (c :: sep) ([] :: p :: ps))
      with ([] ++ (c :: sep) ++ JsString.join_chars (c :: sep) (p :: ps)).
    rewrite Hrest. apply starts_with_prefix in E.
    cbn [length drop app] in E. injection E as -> Hs.
    cbn [app drop]. f_equal. symmetry. exact Hs.
  - pose proof (split_go_nonempty (c :: sep) s 0) as Hne.
    pose proof (IH O) as Hrest.
    destruct (JsString.split_go (c :: sep) 0 s) as [|p ps]; [contradiction|].
    rewrite join_chars_cons, Hrest. reflexivity.
Qed.

Lemma join_split_chars sep s :
  JsString.join_chars sep (JsString.split_chars sep s) = s.
Proof.
  destruct sep as [|c sep]; [|apply (join_split_go c sep s O)].
  cbn [JsString.split_chars]. induction s as [|a s IH]; [reflexivity|].
  cbn [map]. destruct s as [|b s]; [reflexivity|].
  cbn [map] in *. change (JsString.join_chars [] ([a] :: [b] :: map (λ c, [c]) s))
    with ([a] ++ [] ++ JsString.join_chars [] ([b] :: map (λ c, [c]) s)).
  now rewrite IH.
Qed.

Lemma map_list_ascii_of_string l :
  map list_ascii_of_string (map string_of_list_ascii l) = l.
Proof.
  induction l as [|x l IH]; cbn; [reflexivity|].
  now rewrite list_ascii_of_string_of_list_ascii, IH.
Qed.

(** X8: decoding a stored string as a string array and encoding the array
    again gives the stored string back, whatever the string and the
    separator (the empty one included). *)
Theorem stringArray_decode_then_encode (value : string) (fieldDef : FieldDefinition) :
  stringArrayToString (stringToStringArray value fieldDef) fieldDef = value.
Proof.
  unfold stringArrayToString, stringToStringArray, JsString.join, JsString.split.
  rewrite map_list_ascii_of_string, join_split_chars.
  apply string_of_list_ascii_of_string.
Qed.

(** X9: a stored string without a comma is not rejected under a point
    field: it decodes to an object whose longitude is what
    [Number.parseFloat] makes of the whole string ([NaN] when it is not
    numeric) and whose latitude is [undefined]. *)
Theorem point_without_comma (value : string) (fieldDef : FieldDefinition) :
  JsString.includes value "," = false ->
  stringToPoint value = point_object (JsNumber (parseFloat value)) JsUndefined
  /\ fromHashConverters TPoint (JsString value) fieldDef
     = Ok (point_object (JsNumber (parseFloat value)) JsUndefined)
  /\ fromJsonConverters TPoint (JsString value)
     = Ok (point_object (JsNumber (parseFloat value)) JsUndefined).
Proof.
  intros Hno.
  assert (JsString.split value "," = [value]) as Hsplit.
  { unfold JsString.split, JsString.includes in *.
    change (list_ascii_of_string ",") with [","%char] in *.
    cbn [JsString.split_chars].
    rewrite <- (app_nil_r (list_ascii_of_string value)).
    rewrite split_go_piece.
    - cbn [JsString.split_go map]. rewrite !app_nil_r.
      now rewrite string_of_list_ascii_of_string.
    - apply (separable_no_start_end [","%char]). unfold JsString.separable_chars.
      cbn [removelast]. rewrite !app_nil_r in *. now rewrite Hno. }
  assert (stringToPoint value
          = point_object (JsNumber (parseFloat value)) JsUndefined) as Hpoint.
  { unfold stringToPoint. now rewrite Hsplit. }
  split; [exact Hpoint|]. cbn [fromHashConverters fromJsonConverters as_string bind].
  now rewrite Hpoint.
Qed.

Lemma point_without_comma_witness :
  JsString.includes "north" "," = false
  /\ fromHashConverters TPoint (JsString "north") (plain TPoint)
     = Ok (point_object (JsNumber NaN) JsUndefined).
Proof.
  assert (JsString.includes "north" "," = false) as H by reflexivity.
  split; [exact H|].
  exact (proj1 (proj2 (point_without_comma "north" (plain TPoint) H))).
Defined.

(** *** Dates *)

Lemma timeClip_valid x t : timeClip x = Some t -> Z.abs t <= maxTime.
Proof.
  destruct x as [| |m e]; try discriminate. cbn [timeClip].
  destruct (0 <=? e) eqn:Ee.
  - destruct (maxTime <? Z.abs (m * 10 ^ e)) eqn:E; [discriminate|].
    intros [= <-]. apply Z.ltb_ge in E. exact E.
  - apply Z.leb_gt in Ee.
    destruct (maxTime * 10 ^ (- e) <? Z.abs m) eqn:E; [discriminate|].
    intros [= <-]. apply Z.ltb_ge in E.
    assert (0 < 10 ^ (- e)) as Hp by (apply Z.pow_pos_nonneg; lia).
    rewrite <- Z.quot_abs by lia. rewrite (Z.abs_eq (10 ^ (- e))) by lia.
    rewrite Z.quot_div_nonneg by lia.
    apply Z.div_le_upper_bound; lia.
Qed.

(** X10: a date that a decoding returns is a valid [Date] object or the
    invalid date, never a time beyond the range of [Date]: digits that
    denote more than 8.64e15 milliseconds decode, with no error, to the
    invalid date. *)
Theorem decoded_dates (value : string) (d : Date) (n : number) (ds : list ascii) :
  (stringToDate value = Ok d -> valid_date d)
  /\ valid_date (numberToDate n)
  /\ (forallb is_digit ds = true -> maxTime < digits_value 0 ds ->
      stringToDate (string_of_list_ascii ds) = Ok {| time := None |}).
Proof.
  assert (forall x, valid_date {| time := timeClip x |}) as Hvalid.
  { intros x. unfold valid_date. cbn [time].
    destruct (timeClip x) eqn:E; [now apply (timeClip_valid x) | exact I]. }
  split; [|split].
  - unfold stringToDate. destruct (isNaN (parseInt value)); [discriminate|].
    intros [= <-]. apply Hvalid.
  - apply Hvalid.
  - intros Hd Hbig. unfold stringToDate, parseInt.
    rewrite list_ascii_of_string_of_list_ascii.
    assert (1 <= length ds)%nat as Hl.
    { destruct ds; [cbn in Hbig; unfold maxTime in Hbig; lia | cbn; lia]. }
    rewrite <- (app_nil_r ds).
    rewrite parse_int_digits; try assumption; try reflexivity.
    + rewrite isNaN_of_Z. unfold setTime. f_equal. f_equal.
      set (v := digits_value 0 ds) in *.
      destruct (pow10_decomposition v ltac:(unfold maxTime in Hbig; lia))
        as (m & j & Hv & Hr).
      unfold of_Z. rewrite Hv, decimal_pow by assumption. cbn [timeClip].
      rewrite Z.add_0_l.
      destruct (0 <=? Z.of_nat j) eqn:E; [|apply Z.leb_gt in E; lia].
      destruct (maxTime <? Z.abs (m * 10 ^ Z.of_nat j)) eqn:E'; [reflexivity|].
      apply Z.ltb_ge in E'. lia.
    + apply hex_prefix_digits; auto.
Qed.

Lemma decoded_dates_witness :
  stringToDate "99999999999999999" = Ok {| time := None |}
  /\ valid_date {| time := Some 1622505600000 |}.
Proof.
  split.
  - apply (decoded_dates "" {| time := None |} NaN
             (list_ascii_of_string "99999999999999999")); reflexivity.
  - apply (decoded_dates "1622505600000" {| time := Some 1622505600000 |} NaN []).
    reflexivity.
Defined.

(** *** hash-converter.ts and the converters that replaced it *)

(** X11: on every flat record, the decoding of hash-converter.ts and the
    decoding of [HashConverter] for the corresponding schema ([array] as
    [string[]], [geopoint] as [point]) return the same entity data or both
    throw; only the text of the error differs. *)
Theorem legacy_decoding_agrees
    (schemaDef : list (string * LegacyHashConverter.FieldDefinition))
    (hashData : gmap string JsValue) :
  same_outcome (LegacyHashConverter.toEntityData schemaDef hashData)
               (HashConverter.toEntityData (LegacyTypes.modern_schema schemaDef) hashData).
Proof.
  unfold LegacyHashConverter.toEntityData, HashConverter.toEntityData,
    LegacyTypes.modern_schema.
  rewrite for_in_map. apply for_in_same_outcome. intros g gd acc.
  unfold LegacyHashConverter.toEntityData_field, HashConverter.toEntityData_field.
  destruct (negb (is_undefined (get hashData g))); [|reflexivity].
  destruct gd as [t sep]. cbn [LegacyTypes.modern type LegacyHashConverter.type].
  destruct (get hashData g) as [| | | |s| | |];
    try (destruct t; exact I).
  cbn [as_string bind].
  destruct t; cbn [LegacyTypes.modern_type fromHashConverters as_string bind].
  - unfold LegacyHashConverter.addNumber, stringToNumber.
    destruct (isNaN (parseFloat s)); cbn; [exact I | reflexivity].
  - unfold LegacyHashConverter.addBoolean, stringToBoolean.
    destruct (String.eqb s "0"); [reflexivity|].
    destruct (String.eqb s "1"); cbn; [reflexivity | exact I].
  - reflexivity.
  - reflexivity.
  - unfold LegacyHashConverter.addDate, stringToDate.
    destruct (isNaN (parseInt s)); cbn; [exact I | reflexivity].
  - reflexivity.
Qed.



(** *** The index schema *)

(** X13: whatever the field, its structured-encoding declaration is the
    path [$.alias] (with [[*]] for a string array), [AS] and the alias,
    its flat-encoding declaration starts with the alias, and what follows
    is the same in both, except for a string array, where the structured
    one is [TAG] without the separator; an object field, and only an object
    field, is declared with no search type at all. *)
Theorem declarations_of_both_encodings (field : string) (fieldDef : FieldDefinition) :
  let a := default field (alias fieldDef) in
  take 3 (SchemaBuilder.buildJsonSchemaEntry field fieldDef)
  = ["$." +:+ a +:+ (if is_type (type fieldDef) TStringArray then "[*]" else "");
     "AS"; a]
  /\ take 1 (SchemaBuilder.buildHashSchemaEntry field fieldDef) = [a]
  /\ drop 3 (SchemaBuilder.buildJsonSchemaEntry field fieldDef)
     = (if is_type (type fieldDef) TStringArray then ["TAG"]
        else drop 1 (SchemaBuilder.buildHashSchemaEntry field fieldDef))
  /\ (drop 1 (SchemaBuilder.buildHashSchemaEntry field fieldDef) = []
      <-> type fieldDef = TObject)
  /\ (drop 3 (SchemaBuilder.buildJsonSchemaEntry field fieldDef) = []
      <-> type fieldDef = TObject).
Proof.
  destruct fieldDef as [t al sep]. cbn [type alias].
  destruct t; cbv zeta; repeat split; try reflexivity; discriminate.
Qed.


(** *** The options of a schema *)

Lemma includes_In values value :
  SchemaClass.includes values value = true <-> In value values.
Proof.
  unfold SchemaClass.includes. rewrite existsb_exists. split.
  - intros (x & Hin & Hx). apply String.eqb_eq in Hx. now subst.
  - intros Hin. exists value. split; [assumption | apply String.eqb_refl].
Qed.

(** X15: [validateOptions] accepts the options exactly when the data
    structure is [HASH] or [JSON], the stop word mode is [OFF], [DEFAULT]
    or [CUSTOM], the ID strategy is unset, falsy or a function, and the
    prefix and the index name are not empty; the name of the index hash is
    not checked. With no options a schema is accepted exactly when the
    entity class has a name. *)
Theorem validateOptions_accepts (this : SchemaClass.SchemaObject) :
  (SchemaClass.validateOptions this = Ok tt
   <-> (SchemaClass.dataStructure this = "HASH" \/ SchemaClass.dataStructure this = "JSON")
       /\ (SchemaClass.useStopWords this = "OFF"
           \/ SchemaClass.useStopWords this = "DEFAULT"
           \/ SchemaClass.useStopWords this = "CUSTOM")
       /\ SchemaClass.idStrategy_not_function this = false
       /\ SchemaClass.prefix this <> ""
       /\ SchemaClass.indexName this <> "")
  /\ (SchemaClass.options this = None ->
      (SchemaClass.validateOptions this = Ok tt <-> SchemaClass.entityCtor_name this <> "")).
Proof.
  assert (SchemaClass.validateOptions this = Ok tt
   <-> (SchemaClass.dataStructure this = "HASH" \/ SchemaClass.dataStructure this = "JSON")
       /\ (SchemaClass.useStopWords this = "OFF"
           \/ SchemaClass.useStopWords this = "DEFAULT"
           \/ SchemaClass.useStopWords this = "CUSTOM")
       /\ SchemaClass.idStrategy_not_function this = false
       /\ SchemaClass.prefix this <> ""
       /\ SchemaClass.indexName this <> "") as Hiff.
  { unfold SchemaClass.validateOptions.
    destruct (SchemaClass.includes ["HASH"; "JSON"] (SchemaClass.dataStructure this))
      eqn:E1; cbn [negb].
    2: { split; [discriminate|]. intros (H & _). exfalso.
         assert (SchemaClass.includes ["HASH"; "JSON"] (SchemaClass.dataStructure this)
                 = true) as E by (apply includes_In; cbn; intuition).
         congruence. }
    apply includes_In in E1.
    destruct (SchemaClass.includes ["OFF"; "DEFAULT"; "CUSTOM"]
                (SchemaClass.useStopWords this)) eqn:E2; cbn [negb].
    2: { split; [discriminate|]. intros (_ & H & _). exfalso.
         assert (SchemaClass.includes ["OFF"; "DEFAULT"; "CUSTOM"]
                   (SchemaClass.useStopWords this) = true) as E
           by (apply includes_In; cbn; intuition).
         congruence. }
    apply includes_In in E2.
    destruct (SchemaClass.idStrategy_not_function this).
    { split; [discriminate|]. intros (_ & _ & H & _). discriminate H. }
    destruct (String.eqb_spec (SchemaClass.prefix this) "") as [G1|G1].
    { split; [discriminate|]. intros (_ & _ & _ & H & _). contradiction. }
    destruct (String.eqb_spec (SchemaClass.indexName this) "") as [G2|G2].
    { split; [discriminate|]. intros (_ & _ & _ & _ & H). contradiction. }
    split; [intros _ | reflexivity]. cbn in E1, E2. intuition. }
  split; [exact Hiff|].
  intros Hnone. rewrite Hiff.
  unfold SchemaClass.dataStructure, SchemaClass.useStopWords,
    SchemaClass.idStrategy_not_function, SchemaClass.indexName,
    SchemaClass.prefix, SchemaClass.option_or.
  rewrite Hnone. split; [tauto|]. intros Hname.
  repeat split; auto. destruct (SchemaClass.entityCtor_name this); discriminate.
Qed.

Lemma validateOptions_accepts_witness :
  SchemaClass.validateOptions
    {| SchemaClass.entityCtor_name := "Foo"; SchemaClass.schemaDefinition := fooSchema;
       SchemaClass.options := None |} = Ok tt
  /\ SchemaClass.validateOptions
       {| SchemaClass.entityCtor_name := ""; SchemaClass.schemaDefinition := fooSchema;
          SchemaClass.options := None |} <> Ok tt.
Proof.
  split.
  - apply (proj2 (validateOptions_accepts
                    {| SchemaClass.entityCtor_name := "Foo";
                       SchemaClass.schemaDefinition := fooSchema;
                       SchemaClass.options := None |}) eq_refl).
    discriminate.
  - intros H.
    apply (proj2 (validateOptions_accepts
                    {| SchemaClass.entityCtor_name := "";
                       SchemaClass.schemaDefinition := fooSchema;
                       SchemaClass.options := None |}) eq_refl) in H.
    now apply H.
Defined.

End Extras.

(* ================================================================== *)
(** * Further properties of the entity properties and of the search *)
(* ================================================================== *)

Module EntityPropertyFacts.
Import ConverterFacts Converter ConverterLoops EntityProperty.

Section WithRuntime.
Variable Date_toString : Date -> string.
Variable Date_parse : string -> Date.

(** [value.map(v => v.toString())]: the texts of the elements, or the
    [TypeError] of the first [null] or [undefined] among them. *)
Lemma mapM_toString_method elements :
  mapM (toString_method Date_toString) elements
  = if forallb is_defined elements
    then Ok (map (ToString Date_toString) elements)
    else Throw TypeError.
Proof.
  induction elements as [|v elements IH]; [reflexivity|].
  cbn [mapM forallb map]. rewrite IH.
  destruct v; cbn [toString_method bind is_defined is_undefined is_null orb negb andb];
    try reflexivity; now destruct (forallb is_defined elements).
Qed.

Lemma mapM_toString_method_strings strings :
  mapM (toString_method Date_toString) (map JsString strings) = Ok strings.
Proof.
  induction strings as [|s strings IH]; [reflexivity|].
  cbn [mapM map toString_method ToString bind]. now rewrite IH.
Qed.

Lemma mapM_as_string_strings strings :
  mapM as_string (map JsString strings) = Ok strings.
Proof.
  induction strings as [|s strings IH]; [reflexivity|].
  cbn [mapM map as_string bind]. now rewrite IH.
Qed.

(** What a successful assignment did: it removed the key on [null], and
    otherwise stored at the key a value that is neither [null] nor
    [undefined], that the converters of the type accept, and that the setter
    stores unchanged when it is assigned again. *)
Lemma setter_ok_inv entityName field fieldDef entityData value entityData' :
  setter Date_toString Date_parse entityName field fieldDef entityData value
  = Ok entityData' ->
  (value = JsNull /\ entityData' = delete (default field (alias fieldDef)) entityData)
  \/ exists stored,
       entityData' = <[default field (alias fieldDef) := stored]> entityData
       /\ is_defined stored = true
       /\ (forall e,
             setter Date_toString Date_parse entityName field fieldDef e stored
             = Ok (<[default field (alias fieldDef) := stored]> e))
       /\ (exists j, toJsonConverters (type fieldDef) stored = Ok j)
       /\ (exists h, toHashConverters (type fieldDef) stored fieldDef = Ok h).
Proof.
  destruct fieldDef as [t al sep]. unfold setter, fieldAlias. cbn [type alias].
  destruct value; cbn [is_undefined is_null]; try discriminate.
  - intros [= <-]. left. split; reflexivity.
  - destruct t; cbn; try discriminate; intros [= <-]; right; eexists;
      (split; [reflexivity|]); (split; [reflexivity|]);
      (split; [intros e; reflexivity|]); split; eexists; reflexivity.
  - destruct t; cbn; try discriminate; intros [= <-]; right; eexists;
      (split; [reflexivity|]); (split; [reflexivity|]);
      (split; [intros e; reflexivity|]); split; eexists; reflexivity.
  - destruct t; cbn; try discriminate; intros [= <-]; right; eexists;
      (split; [reflexivity|]); (split; [reflexivity|]);
      (split; [intros e; reflexivity|]); split; eexists; reflexivity.
  - destruct t; cbn; try discriminate; intros [= <-]; right; eexists;
      (split; [reflexivity|]); (split; [reflexivity|]);
      (split; [intros e; reflexivity|]); split; eexists; reflexivity.
  - destruct t; cbn -[mapM]; try discriminate.
    + intros H. apply bind_ok_inv in H as (strings & Hs & [= <-]).
      right. exists (JsStringArray strings).
      split; [reflexivity|]. split; [reflexivity|]. split; [|split].
      * intros e. unfold JsStringArray. cbn -[mapM].
        now rewrite mapM_toString_method_strings.
      * eexists; reflexivity.
      * exists (JsString (stringArrayToString strings
                            {| type := TStringArray; alias := al; separator := sep |})).
        unfold JsStringArray. cbn -[mapM stringArrayToString].
        now rewrite mapM_as_string_strings.
    + intros [= <-]. right. eexists.
      (split; [reflexivity|]); (split; [reflexivity|]);
      (split; [intros e; reflexivity|]); split; eexists; reflexivity.
  - destruct t; cbn; try discriminate.
    + unfold isPoint, member.
      destruct (property properties "longitude") as [| |lon| | | | |] eqn:Elon;
        cbn; try discriminate.
      destruct (property properties "latitude") as [| |lat| | | | |] eqn:Elat;
        cbn; try discriminate.
      intros [= <-]. right. eexists.
      (split; [reflexivity|]); (split; [reflexivity|]);
      (split; [intros e; reflexivity|]); split; eexists; reflexivity.
    + intros [= <-]. right. eexists.
      (split; [reflexivity|]); (split; [reflexivity|]);
      (split; [intros e; reflexivity|]); split; eexists; reflexivity.
Qed.

End WithRuntime.

(** The property reads the value stored at its key. *)
Lemma getter_insert field fieldDef (entityData : gmap string JsValue) stored :
  is_defined stored = true ->
  getter field fieldDef (<[default field (alias fieldDef) := stored]> entityData)
  = stored.
Proof.
  intros Hdef. unfold getter, fieldAlias, get.
  rewrite lookup_insert_eq. cbn [default from_option id].
  now destruct stored.
Qed.

End EntityPropertyFacts.

Module SearchTreeFacts.
Import Search SearchTree SearchFacts ConverterLoops.

(** [createWhere] builds a leaf for every declared field but one of type
    [object]. *)
Lemma createWhere_ok_iff this f :
  (exists leaf, createWhere this f = Ok leaf)
  <-> exists fieldDef,
        definition_of (definition (schema this)) f = Some fieldDef
        /\ type fieldDef <> TObject.
Proof.
  unfold createWhere. destruct (definition_of _ f) as [fieldDef|].
  - destruct (type fieldDef) eqn:Et, (dataStructure (schema this)); cbn; split;
      first [ intros _; exists fieldDef; split; [reflexivity | congruence]
            | intros _; eexists; reflexivity
            | intros (leaf & [=])
            | intros (fd & [= <-] & Hne); congruence ].
  - split; [intros (leaf & [=]) | intros (fd & [=] & _)].
Qed.

Lemma call_field_inv this m f op final :
  call this (CallField m f op) = Ok final ->
  exists leaf,
    createWhere this f = Ok leaf
    /\ final
       = {| schema := schema this;
            rootWhere :=
              Some match rootWhere this with
                   | None => WhereRef (length (objects this))
                   | Some root => constructor_of m root (WhereRef (length (objects this)))
                   end;
            objects := objects this
                       ++ [{| whereClass := whereClass leaf; field := f;
                              operation := Some op |}] |}.
Proof.
  destruct (createWhere this f) as [leaf| |] eqn:E.
  - rewrite (call_field _ m _ op _ E). intros [= <-]. now exists leaf.
  - unfold call, anyWhereForField. rewrite E. discriminate.
  - unfold call, anyWhereForField. rewrite E. discriminate.
Qed.

(** A chain of calls with field names: each call adds one leaf object to
    the store and one leaf, at the right end, to the tree. *)
Lemma chain_fields calls : forall this final,
  forallb is_CallField calls = true ->
  chain this calls = Ok final ->
  schema final = schema this
  /\ root_leaves final
     = root_leaves this ++ seq (length (objects this)) (length calls)
  /\ exists added,
       objects final = objects this ++ added
       /\ map field added = map called_field calls
       /\ map operation added = map called_operation calls.
Proof.
  induction calls as [|c calls IH]; intros this final Hall Hchain.
  - cbn in Hchain. injection Hchain as <-. split; [reflexivity|]. split.
    + cbn. now rewrite app_nil_r.
    + exists []. now rewrite app_nil_r.
  - cbn [forallb] in Hall. apply andb_true_iff in Hall as [Hc Hall].
    destruct c as [m f op | m fn]; [|discriminate].
    cbn [chain] in Hchain. apply bind_ok_inv in Hchain as (this' & Hcall & Hchain).
    apply call_field_inv in Hcall as (leaf & Hleaf & ->).
    destruct (IH _ _ Hall Hchain) as (Hschema & Hleaves & added & Hobjects & Hf & Ho).
    cbn [schema objects] in *. split; [exact Hschema|]. split.
    + rewrite Hleaves. rewrite length_app. cbn [length seq].
      replace (length (objects this) + 1) with (S (length (objects this))) by lia.
      unfold root_leaves at 1. cbn [rootWhere].
      unfold root_leaves. destruct (rootWhere this) as [root|].
      * destruct m; cbn [constructor_of leaves]; now rewrite <- app_assoc.
      * reflexivity.
    + eexists. rewrite Hobjects, <- app_assoc. split; [reflexivity|].
      cbn [app map called_field called_operation field operation].
      now rewrite Hf, Ho.
Qed.

Lemma leaves_nonempty w : leaves w <> [].
Proof.
  induction w as [ref | l IHl r IHr | l IHl r IHr]; cbn [leaves];
    [discriminate | |]; intros H; apply app_eq_nil in H as [H _]; contradiction.
Qed.

(** After such a chain on a search with no condition, the search has a
    root exactly when there was a call. *)
Lemma field_chain_root calls this final :
  forallb is_CallField calls = true ->
  chain (new_Search (schema this) (objects this)) calls = Ok final ->
  root_leaves final = seq (length (objects this)) (length calls)
  /\ (calls <> [] -> exists root, rootWhere final = Some root).
Proof.
  intros Hall Hchain.
  destruct (chain_fields _ _ _ Hall Hchain) as (_ & Hleaves & _).
  cbn [new_Search objects] in Hleaves. unfold root_leaves at 2 in Hleaves.
  cbn [new_Search rootWhere app] in Hleaves. split; [exact Hleaves|].
  intros Hne. unfold root_leaves in Hleaves.
  destruct (rootWhere final) as [root|]; [now exists root|].
  destruct calls; [contradiction | discriminate].
Qed.

End SearchTreeFacts.

Module AbstractSearchFacts.
Import AbstractSearch.

Section Window.
Context {TEntity : Type}.
Variable page : nat -> nat -> result (list TEntity).
Variable results : list TEntity.

(** The backend holds [results] and answers a page with those from the
    offset on, at most [count] of them. *)
Hypothesis page_window : forall offset count,
  page offset count = Ok (take count (drop offset results)).

(** The loop of [all] over such a backend: it stops at the first page that
    is not full. *)
Lemma all_loop_window pageSize : 0 < pageSize ->
  forall fuel offset entities,
    all_loop page fuel pageSize offset entities
    = if length (drop offset results) / pageSize <? fuel
      then Some (Ok (entities ++ drop offset results))
      else None.
Proof.
  intros Hpos. induction fuel as [|fuel IH]; intros offset entities.
  - reflexivity.
  - cbn [all_loop]. rewrite page_window.
    pose proof (length_drop results offset) as Hdrop.
    destruct (Nat.ltb_spec (length (take pageSize (drop offset results))) pageSize)
      as [Hshort|Hfull]; rewrite length_take in *.
    + rewrite Nat.div_small by lia.
      rewrite take_ge by lia. reflexivity.
    + rewrite IH. rewrite <- drop_drop, (length_drop (drop offset results)).
      replace (length (drop offset results))
        with ((length (drop offset results) - pageSize) + 1 * pageSize) at 2 by lia.
      rewrite Nat.div_add by lia.
      replace ((length (drop offset results) - pageSize) / pageSize + 1 <? S fuel)
        with ((length (drop offset results) - pageSize) / pageSize <? fuel).
      * rewrite <- app_assoc, take_drop. reflexivity.
      * destruct (Nat.ltb_spec ((length (drop offset results) - pageSize) / pageSize) fuel),
          (Nat.ltb_spec ((length (drop offset results) - pageSize) / pageSize + 1) (S fuel));
          try reflexivity; lia.
Qed.

End Window.

(** The loop of [all] over a backend whose pages are always full. *)
Lemma all_loop_full_pages {TEntity : Type}
    (page : nat -> nat -> result (list TEntity)) pageSize :
  (forall offset, exists foundEntities,
      page offset pageSize = Ok foundEntities /\ pageSize <= length foundEntities) ->
  forall fuel offset entities, all_loop page fuel pageSize offset entities = None.
Proof.
  intros Hfull. induction fuel as [|fuel IH]; intros offset entities; [reflexivity|].
  cbn [all_loop]. destruct (Hfull offset) as (found & -> & Hlen).
  destruct (Nat.ltb_spec (length found) pageSize); [lia | apply IH].
Qed.

End AbstractSearchFacts.

(** ** Entity properties, search trees and paging *)

Module Behaviour.
Import ConverterFacts Converter ConverterLoops.
Import EntityPropertyFacts SearchTreeFacts AbstractSearchFacts.
Import Examples MoreExamples.

(** *** The property setter and getter *)

(** X16: a successful assignment to a property changes the entity data at
    the key of the property only: every other key holds what it held, and
    every property with another key reads what it read. *)
Theorem assignment_changes_one_key
    (Date_toString : Date -> string) (Date_parse : string -> Date)
    (entityName field : string) (fieldDef : FieldDefinition)
    (entityData entityData' : gmap string JsValue) (value : JsValue) :
  EntityProperty.setter Date_toString Date_parse entityName field fieldDef
    entityData value = Ok entityData' ->
  (forall k, k <> default field (alias fieldDef) ->
     entityData' !! k = entityData !! k)
  /\ (forall g gd, default g (alias gd) <> default field (alias fieldDef) ->
        EntityProperty.getter g gd entityData' = EntityProperty.getter g gd entityData).
Proof.
  intros Hset.
  assert (forall k, k <> default field (alias fieldDef) ->
            entityData' !! k = entityData !! k) as Hframe.
  { intros k Hk.
    destruct (setter_ok_inv _ _ _ _ _ _ _ _ Hset) as [[_ ->] | (stored & -> & _)].
    - now apply lookup_delete_ne.
    - now apply lookup_insert_ne. }
  split; [exact Hframe|].
  intros g gd Hne. unfold EntityProperty.getter, EntityProperty.fieldAlias, get.
  now rewrite Hframe.
Qed.

Lemma assignment_changes_one_key_witness :
  exists entityData',
    EntityProperty.setter exampleDate_toString exampleDate_parse "Foo" "aNumber"
      (plain TNumber) fooEntity (JsNumber (of_Z 7)) = Ok entityData'
    /\ EntityProperty.getter "aString" (plain TString) entityData'
       = EntityProperty.getter "aString" (plain TString) fooEntity.
Proof.
  eexists. split; [reflexivity|].
  apply (proj2 (assignment_changes_one_key exampleDate_toString exampleDate_parse
                  "Foo" "aNumber" (plain TNumber) fooEntity _ (JsNumber (of_Z 7))
                  eq_refl)).
  discriminate.
Defined.

(** X17: after a successful assignment of a value other than [null], the
    property reads a value that is neither [null] nor [undefined], the one
    stored at its key, and both encodings convert that value without a type
    error; a property of type [string] or [text] reads the text of the
    number, boolean or string assigned, and one of type [number],
    [boolean] or [object] the value assigned. *)
Theorem assigned_value_is_read_back
    (Date_toString : Date -> string) (Date_parse : string -> Date)
    (entityName field : string) (fieldDef : FieldDefinition)
    (entityData entityData' : gmap string JsValue) (value : JsValue) :
  EntityProperty.setter Date_toString Date_parse entityName field fieldDef
    entityData value = Ok entityData' ->
  value <> JsNull ->
  let read := EntityProperty.getter field fieldDef entityData' in
  is_defined read = true
  /\ entityData' !! default field (alias fieldDef) = Some read
  /\ (exists j, toJsonConverters (type fieldDef) read = Ok j)
  /\ (exists h, toHashConverters (type fieldDef) read fieldDef = Ok h)
  /\ (type fieldDef = TString \/ type fieldDef = TText ->
      read = JsString (ToString Date_toString value))
  /\ (type fieldDef = TNumber \/ type fieldDef = TBoolean \/ type fieldDef = TObject ->
      read = value).
Proof.
  intros Hset Hnull. cbv zeta.
  pose proof (getter_insert field fieldDef entityData) as Hget.
  destruct (setter_ok_inv _ _ _ _ _ _ _ _ Hset)
    as [[-> _] | (stored & -> & Hdef & _ & Hjson & Hhash)]; [contradiction|].
  rewrite (Hget stored Hdef).
  split; [exact Hdef|]. split; [apply lookup_insert_eq|].
  split; [exact Hjson|]. split; [exact Hhash|].
  pose proof (Hget stored Hdef) as Hread.
  clear Hjson Hhash Hget.
  assert (EntityProperty.setter Date_toString Date_parse entityName field fieldDef
            entityData value
          = Ok (<[default field (alias fieldDef) := stored]> entityData)) as Hset'
    by exact Hset.
  clear Hset.
  assert (forall v, Ok (<[default field (alias fieldDef) := v]> entityData)
                    = Ok (<[default field (alias fieldDef) := stored]> entityData)
                    -> stored = v) as Hinj.
  { intros v [= E].
    assert (<[default field (alias fieldDef) := v]> entityData
              !! default field (alias fieldDef)
            = <[default field (alias fieldDef) := stored]> entityData
              !! default field (alias fieldDef)) as E' by now rewrite E.
    rewrite !lookup_insert_eq in E'. congruence. }
  destruct fieldDef as [t al sep].
  unfold EntityProperty.setter, EntityProperty.fieldAlias in Hset'.
  cbn [type alias] in *.
  split.
  - intros [-> | ->]; destruct value; cbn in Hset'; try discriminate;
      try contradiction; now apply Hinj in Hset'.
  - intros [-> | [-> | ->]]; destruct value; cbn in Hset'; try discriminate;
      try contradiction; now apply Hinj in Hset'.
Qed.

Lemma assigned_value_is_read_back_witness :
  exists entityData',
    EntityProperty.setter exampleDate_toString exampleDate_parse "Foo" "aString"
      (plain TString) fooEntity (JsNumber (of_Z 42)) = Ok entityData'
    /\ EntityProperty.getter "aString" (plain TString) entityData' = JsString "42".
Proof.
  eexists. split; [reflexivity|].
  destruct (assigned_value_is_read_back exampleDate_toString exampleDate_parse
              "Foo" "aString" (plain TString) fooEntity _ (JsNumber (of_Z 42))
              eq_refl ltac:(discriminate)) as (_ & _ & _ & _ & Htext & _).
  exact (Htext (or_introl eq_refl)).
Defined.

(** X18: an array assigned to a property of type [string[]] is stored as
    the texts of its elements, whatever they are, when none of them is
    [null] or [undefined]; otherwise the assignment throws a [TypeError],
    and not the [RedisError] of a value of the wrong type. *)
Theorem string_array_assignment
    (Date_toString : Date -> string) (Date_parse : string -> Date)
    (entityName field : string) (fieldDef : FieldDefinition)
    (entityData : gmap string JsValue) (elements : list JsValue) :
  type fieldDef = TStringArray ->
  EntityProperty.setter Date_toString Date_parse entityName field fieldDef
    entityData (JsArray elements)
  = if forallb is_defined elements
    then Ok (<[default field (alias fieldDef)
               := JsStringArray (map (ToString Date_toString) elements)]> entityData)
    else Throw TypeError.
Proof.
  destruct fieldDef as [t al sep]. cbn [type alias]. intros ->.
  unfold EntityProperty.setter, EntityProperty.fieldAlias. cbn -[mapM].
  rewrite mapM_toString_method. now destruct (forallb is_defined elements).
Qed.

Lemma string_array_assignment_witness :
  EntityProperty.setter exampleDate_toString exampleDate_parse "Foo" "someStrings"
    (plain TStringArray) fooEntity (JsArray [JsString "a"; JsNull])
  = Throw TypeError
  /\ EntityProperty.setter exampleDate_toString exampleDate_parse "Foo" "someStrings"
       (plain TStringArray) fooEntity (JsArray [JsString "a"; JsNumber (of_Z 1)])
     = Ok (<["someStrings" := JsStringArray ["a"; "1"]]> fooEntity).
Proof.
  split.
  - exact (string_array_assignment exampleDate_toString exampleDate_parse
             "Foo" "someStrings" (plain TStringArray) fooEntity
             [JsString "a"; JsNull] eq_refl).
  - exact (string_array_assignment exampleDate_toString exampleDate_parse
             "Foo" "someStrings" (plain TStringArray) fooEntity
             [JsString "a"; JsNumber (of_Z 1)] eq_refl).
Defined.



(** *** The search tree *)

(** X20: [createWhere] builds a leaf exactly for the fields the schema
    declares with a type other than [object]; the leaf is for that field
    and has no operator yet, and its class is the boolean one of the data
    structure of the schema when it is a boolean one. When no leaf is
    built, [where], [and] and [or] with the field return no search. *)
Theorem searchable_fields (this : Search.Search) (f : string) :
  ((exists leaf, Search.createWhere this f = Ok leaf)
   <-> exists fieldDef,
         definition_of (definition (Search.schema this)) f = Some fieldDef
         /\ type fieldDef <> TObject)
  /\ (forall leaf, Search.createWhere this f = Ok leaf ->
        Search.field leaf = f
        /\ Search.operation leaf = None
        /\ (Search.whereClass leaf = Search.WhereHashBoolean ->
            dataStructure (Search.schema this) = HASH)
        /\ (Search.whereClass leaf = Search.WhereJsonBoolean ->
            dataStructure (Search.schema this) = JSON))
  /\ (forall ctor, (forall leaf, Search.createWhere this f <> Ok leaf) ->
        forall r, Search.anyWhereForField this ctor f <> Ok r).
Proof.
  split; [apply createWhere_ok_iff|]. split.
  - intros leaf Hleaf.
    destruct (SearchFacts.createWhere_leaf _ _ _ Hleaf) as [Hf Ho].
    split; [exact Hf|]. split; [exact Ho|].
    unfold Search.createWhere in Hleaf.
    destruct (definition_of _ f) as [fieldDef|]; [|discriminate].
    destruct (type fieldDef), (dataStructure (Search.schema this)); cbn in Hleaf;
      try discriminate; injection Hleaf as <-; cbn; split;
      first [reflexivity | discriminate].
  - intros ctor Hnone r. unfold Search.anyWhereForField.
    destruct (Search.createWhere this f) as [leaf| |] eqn:E; cbn; try discriminate.
    now destruct (Hnone leaf).
Qed.

(** X21: on a search with no condition yet, a chain of [where], [and] and
    [or] calls with field names that succeeds adds one leaf object per
    call, for the field and with the operator of the call, in the order of
    the calls, and the tree holds exactly these leaves, each once, from
    left to right in that order. *)
Theorem field_chain_leaves (this final : Search.Search) (calls : list Search.Call) :
  Search.rootWhere this = None ->
  forallb SearchTree.is_CallField calls = true ->
  Search.chain this calls = Ok final ->
  SearchTree.root_leaves final = seq (length (Search.objects this)) (length calls)
  /\ NoDup (SearchTree.root_leaves final)
  /\ exists added,
       Search.objects final = Search.objects this ++ added
       /\ map Search.field added = map SearchTree.called_field calls
       /\ map Search.operation added = map SearchTree.called_operation calls.
Proof.
  intros Hroot Hall Hchain.
  destruct (chain_fields _ _ _ Hall Hchain) as (_ & Hleaves & Hadded).
  unfold SearchTree.root_leaves at 2 in Hleaves. rewrite Hroot in Hleaves.
  cbn [app] in Hleaves. split; [exact Hleaves|]. split; [|exact Hadded].
  rewrite Hleaves. apply NoDup_ListNoDup, List.seq_NoDup.
Qed.

Lemma field_chain_leaves_witness :
  exists final,
    Search.chain (Search.new_Search abcSchema [])
      [Search.CallField Search.where_method "a" (Search.eq (JsNumber (of_Z 1)));
       Search.CallField Search.or_method "b" (Search.eq (JsNumber (of_Z 2)));
       Search.CallField Search.and_method "c" (Search.eq (JsNumber (of_Z 3)))]
    = Ok final
    /\ SearchTree.root_leaves final = [0; 1; 2].
Proof.
  eexists. split; [reflexivity|].
  exact (proj1 (field_chain_leaves (Search.new_Search abcSchema []) _
    [Search.CallField Search.where_method "a" (Search.eq (JsNumber (of_Z 1)));
     Search.CallField Search.or_method "b" (Search.eq (JsNumber (of_Z 2)));
     Search.CallField Search.and_method "c" (Search.eq (JsNumber (of_Z 3)))]
    eq_refl eq_refl eq_refl)).
Defined.

(** X22: a sub-search function that chains calls with field names: with no
    call at all the sub-search has no root and [where], [and] and [or]
    throw; with at least one call they succeed, keep the leaf objects of
    the sub-search, and the leaves of the sub-search follow those of the
    search in the tree. *)
Theorem sub_search_needs_a_condition (this sub : Search.Search) (m : Search.Method)
    (calls : list Search.Call) :
  forallb SearchTree.is_CallField calls = true ->
  Search.chain (Search.new_Search (Search.schema this) (Search.objects this)) calls
  = Ok sub ->
  (calls = [] ->
   Search.call this (Search.CallFunction m (fun s => Search.chain s calls))
   = Throw (Error "Sub-search without and root where was somehow defined."))
  /\ (calls <> [] ->
      exists final,
        Search.call this (Search.CallFunction m (fun s => Search.chain s calls))
        = Ok final
        /\ Search.objects final = Search.objects sub
        /\ SearchTree.root_leaves final
           = SearchTree.root_leaves this
             ++ seq (length (Search.objects this)) (length calls)).
Proof.
  intros Hall Hchain. split.
  - intros ->. cbn. reflexivity.
  - intros Hne.
    destruct (field_chain_root _ _ _ Hall Hchain) as (Hleaves & Hsome).
    destruct (Hsome Hne) as (subRoot & HsubRoot).
    rewrite (SearchFacts.call_function _ _ _ _ _ Hchain HsubRoot).
    eexists. split; [reflexivity|]. split; [reflexivity|].
    unfold SearchTree.root_leaves in Hleaves. rewrite HsubRoot in Hleaves.
    cbn [Search.new_Search Search.rootWhere Search.objects app] in Hleaves.
    unfold SearchTree.root_leaves. cbn [Search.rootWhere].
    destruct (Search.rootWhere this) as [root|].
    + destruct m; cbn [Search.constructor_of SearchTree.leaves]; now rewrite Hleaves.
    + exact Hleaves.
Qed.

Lemma sub_search_needs_a_condition_witness :
  Search.call (Search.new_Search abcSchema [])
    (Search.CallFunction Search.where_method (fun s => Search.chain s []))
  = Throw (Error "Sub-search without and root where was somehow defined.").
Proof.
  exact (proj1 (sub_search_needs_a_condition (Search.new_Search abcSchema []) _
                  Search.where_method [] eq_refl eq_refl) eq_refl).
Defined.

(** *** Paging *)

(** X23: over a backend that holds the results and answers a page with the
    results from the offset on, at most as many as asked for, [all] with a
    page size above zero returns exactly the results, in order, after one
    call more than the number of full pages, and not before. *)
Theorem all_returns_every_result {TEntity : Type}
    (page : nat -> nat -> result (list TEntity)) (results : list TEntity)
    (pageSize fuel : nat) :
  (forall offset count, page offset count = Ok (take count (drop offset results))) ->
  0 < pageSize ->
  AbstractSearch.all page fuel pageSize
  = if length results / pageSize <? fuel then Some (Ok results) else None.
Proof.
  intros Hpage Hpos. unfold AbstractSearch.all.
  now rewrite (all_loop_window page results Hpage pageSize Hpos).
Qed.

Lemma all_returns_every_result_witness :
  AbstractSearch.all (AbstractSearch.window ["a"; "b"; "c"; "d"]) 3 2
  = Some (Ok ["a"; "b"; "c"; "d"])
  /\ AbstractSearch.all (AbstractSearch.window ["a"; "b"; "c"; "d"]) 2 2 = None.
Proof.
  split.
  - exact (all_returns_every_result (AbstractSearch.window ["a"; "b"; "c"; "d"])
             ["a"; "b"; "c"; "d"] 2 3 (fun _ _ => eq_refl) ltac:(lia)).
  - exact (all_returns_every_result (AbstractSearch.window ["a"; "b"; "c"; "d"])
             ["a"; "b"; "c"; "d"] 2 2 (fun _ _ => eq_refl) ltac:(lia)).
Defined.

(** X24: when every page the backend answers is full, the loop of [all]
    never ends, whatever the number of calls; a page size of zero is such a
    case, since no page is shorter than zero. *)
Theorem all_never_returns_on_full_pages {TEntity : Type}
    (page : nat -> nat -> result (list TEntity)) (pageSize : nat) :
  (forall offset, exists foundEntities,
      page offset pageSize = Ok foundEntities /\ pageSize <= length foundEntities) ->
  forall fuel, AbstractSearch.all page fuel pageSize = None.
Proof.
  intros Hfull fuel. unfold AbstractSearch.all. now apply all_loop_full_pages.
Qed.

Lemma all_never_returns_on_full_pages_witness :
  AbstractSearch.all (AbstractSearch.window ["a"; "b"]) 100 0 = None.
Proof.
  apply (all_never_returns_on_full_pages (AbstractSearch.window ["a"; "b"]) 0).
  intros offset. exists []. split; [reflexivity | cbn; lia].
Defined.

End Behaviour.
